(** * Idiscovr: handover tracking, RSSI estimation and flow statistics

    A shallow embedding of the analytic code that the two scenario files
    [scratch_tests_additionnel/wifi-roaming-v4.cc] and
    [scratch_tests_additionnel/roaming-saturation.cc] share:

    - [CalculateRssi] (log-distance path loss),
    - [AssociationCallback] and [DisassociationCallback] (handover
      detection over the globals [handoverCount], [currentAp] and
      [handoverFile]),
    - the flow statistics loop at the end of [main].

    Conventions of the embedding.
    - [uint32_t] and [uint64_t] values are [N]; the only arithmetic the
      code performs on them is [handoverCount++], whose wrap-around at
      [2^32] is written out.
    - [std::map<uint32_t, Mac48Address>] is a [gmap N Mac48Address].
    - A [double] is idealised as an exact number: a rational ([Q]) where
      the code only uses field operations, comparisons and printing (so
      that the model runs), a real ([R]) where it calls [std::sqrt] and
      [std::log10].  Rounding, infinities and NaN are not modelled.
    - An output stream is the list of the lines written to it so far, each
      statement that ends in [std::endl] (or in a newline) adding one line.
    - The association callbacks are modelled from the point where they
      hold [nodeId] (read from the context path with [std::stoi]) and
      [currentTime]; their console narration is left out, and it is the
      only place where the two files differ in these callbacks.

    The later modules cover the rest of the analytic code: [Context] the
    extraction of the station number from the context path, [RssiSampler]
    the periodic [RssiMonitorCallback], and [TrackerFacts], [RssiFacts] and
    [FlowFacts] further properties of the code above. *)

From Stdlib Require Import ZArith QArith Qabs Reals Lra Lia.
From Stdlib Require Import String Ascii DecimalString.
From Stdlib Require Strings.Byte DecimalN.
From stdpp Require Import gmap strings list.

Local Open Scope Z_scope.

(** ** Text: comma-separated fields *)

Module Text.

Definition is_comma (c : ascii) : bool := Ascii.eqb c ","%char.

(** A string without any comma: it is one CSV field. *)
Fixpoint comma_free (s : string) : bool :=
  match s with
  | EmptyString => true
  | String c s' => negb (is_comma c) && comma_free s'
  end.

(** The comma-separated fields of a line, in order.  A line always has at
    least one (possibly empty) field. *)
Fixpoint fields (s : string) : list string :=
  match s with
  | EmptyString => [EmptyString]
  | String c s' =>
      if is_comma c then EmptyString :: fields s'
      else match fields s' with
           | f :: fs => String c f :: fs
           | [] => [String c EmptyString]
           end
  end.

(** Joining fields with commas, as the chains of [<<] in the source do. *)
Fixpoint join (fs : list string) : string :=
  match fs with
  | [] => EmptyString
  | [f] => f
  | f :: fs' => f +:+ "," +:+ join fs'
  end.

Fixpoint string_take (n : nat) (s : string) : string :=
  match n, s with
  | S n', String c s' => String c (string_take n' s')
  | _, _ => EmptyString
  end.

Fixpoint string_drop (n : nat) (s : string) : string :=
  match n, s with
  | S n', String _ s' => string_drop n' s'
  | _, _ => s
  end.

Fixpoint replicate_char (n : nat) (c : ascii) : string :=
  match n with
  | O => EmptyString
  | S n' => String c (replicate_char n' c)
  end.

Lemma comma_free_app (a b : string) :
  comma_free (a +:+ b) = comma_free a && comma_free b.
Proof.
  induction a as [|c a IH]; simpl; [reflexivity|].
  rewrite IH. now rewrite andb_assoc.
Qed.

Lemma comma_free_take (n : nat) (s : string) :
  comma_free s = true -> comma_free (string_take n s) = true.
Proof.
  revert s. induction n as [|n IH]; intros [|c s]; simpl; auto.
  intros H. apply andb_true_iff in H as [Hc Hs].
  rewrite Hc. simpl. now apply IH.
Qed.

Lemma comma_free_drop (n : nat) (s : string) :
  comma_free s = true -> comma_free (string_drop n s) = true.
Proof.
  revert s. induction n as [|n IH]; intros [|c s]; simpl; auto.
  intros H. apply andb_true_iff in H as [_ Hs]. now apply IH.
Qed.

Lemma comma_free_replicate (n : nat) (c : ascii) :
  is_comma c = false -> comma_free (replicate_char n c) = true.
Proof. intros Hc. induction n; simpl; [reflexivity|]. now rewrite Hc, IHn. Qed.

Lemma fields_nonempty (s : string) : fields s <> [].
Proof.
  induction s as [|c s IH]; simpl; [discriminate|].
  destruct (is_comma c); [discriminate|].
  destruct (fields s); discriminate.
Qed.

Lemma fields_comma_free (a : string) :
  comma_free a = true -> fields a = [a].
Proof.
  induction a as [|c a IH]; simpl; [reflexivity|].
  intros H. apply andb_true_iff in H as [Hc Ha].
  apply negb_true_iff in Hc. rewrite Hc, (IH Ha). reflexivity.
Qed.

Lemma fields_cons (a rest : string) :
  comma_free a = true -> fields (a +:+ "," +:+ rest) = a :: fields rest.
Proof.
  induction a as [|c a IH]; simpl; [reflexivity|].
  intros H. apply andb_true_iff in H as [Hc Ha].
  apply negb_true_iff in Hc. rewrite Hc, (IH Ha). reflexivity.
Qed.

(** Splitting undoes joining when no field contains a comma. *)
Lemma fields_join (fs : list string) :
  fs <> [] -> forallb comma_free fs = true -> fields (join fs) = fs.
Proof.
  induction fs as [|f fs IH]; [congruence|].
  intros _ H. simpl in H. apply andb_true_iff in H as [Hf Hfs].
  destruct fs as [|g fs].
  - simpl. now apply fields_comma_free.
  - change (join (f :: g :: fs)) with (f +:+ "," +:+ join (g :: fs)).
    rewrite fields_cons by assumption.
    rewrite IH; [reflexivity|discriminate|assumption].
Qed.

End Text.

(** ** Printing: what [operator<<] writes for each type the code prints *)

Module Show.
Import Text.

Create HintDb csv.

Lemma comma_free_app_intro (a b : string) :
  comma_free a = true -> comma_free b = true -> comma_free (a +:+ b) = true.
Proof. intros Ha Hb. now rewrite comma_free_app, Ha, Hb. Qed.

#[export] Hint Resolve comma_free_app_intro comma_free_take comma_free_drop
  comma_free_replicate : csv.
#[export] Hint Extern 4 (comma_free _ = true) => reflexivity : csv.
#[export] Hint Extern 4 (is_comma _ = false) => reflexivity : csv.

(** *** Unsigned integers: decimal, no padding *)

(** [os << x] for an unsigned integer [x] ([uint32_t], [uint64_t]). *)
Definition show_uint (n : N) : string := NilZero.string_of_uint (N.to_uint n).

Lemma comma_free_string_of_uint (d : Decimal.uint) :
  comma_free (NilZero.string_of_uint d) = true.
Proof.
  unfold NilZero.string_of_uint. destruct d; try reflexivity;
    simpl; (induction d; simpl; auto).
Qed.

Lemma comma_free_show_uint (n : N) : comma_free (show_uint n) = true.
Proof. apply comma_free_string_of_uint. Qed.

#[export] Hint Resolve comma_free_show_uint : csv.

(** *** Doubles: the stream's default format

    With the flags a fresh [std::ofstream] has, [os << x] for a [double]
    prints like [printf("%g", x)]: six significant digits, rounded to
    nearest (ties to even); fixed notation when the decimal exponent [X] of
    the rounded value satisfies [-4 <= X < 6], scientific notation
    otherwise; trailing zeros of the fraction, and a decimal point left
    without fraction, are dropped.  The value printed here is the exact
    rational [n / d]. *)

(** Number of decimal digits of a positive integer. *)
Definition ndigits (p : positive) : Z :=
  Z.of_nat (String.length (show_uint (Npos p))).

(** [floor (log10 (n / d))]: it is [ndigits n - ndigits d] or one less. *)
Definition decimal_exponent (n d : positive) : Z :=
  let x0 := ndigits n - ndigits d in
  let reached :=
    if 0 <=? x0 then Zpos d * 10 ^ x0 <=? Zpos n
    else Zpos d <=? Zpos n * 10 ^ (- x0) in
  if reached then x0 else x0 - 1.

(** [num / den] rounded to the nearest integer, ties to even. *)
Definition round_half_even (num den : Z) : Z :=
  let q := num / den in
  let r := num mod den in
  match 2 * r ?= den with
  | Lt => q
  | Gt => q + 1
  | Eq => if Z.even q then q else q + 1
  end.

(** [n / d * 10 ^ (5 - x)] rounded: the six significant digits. *)
Definition scaled6 (n d : positive) (x : Z) : Z :=
  let k := 5 - x in
  if 0 <=? k then round_half_even (Zpos n * 10 ^ k) (Zpos d)
  else round_half_even (Zpos n) (Zpos d * 10 ^ (- k)).

(** Six-digit significand and decimal exponent after rounding; rounding up
    to [10^6] moves to the next decade. *)
Definition significand_exponent (n d : positive) : Z * Z :=
  let x := decimal_exponent n d in
  let m := scaled6 n d x in
  if m =? 1000000 then (100000, x + 1) else (m, x).

Fixpoint strip_zeros (s : string) : string :=
  match s with
  | EmptyString => EmptyString
  | String c s' =>
      match strip_zeros s' with
      | EmptyString =>
          if Ascii.eqb c "0"%char then EmptyString else String c EmptyString
      | t => String c t
      end
  end.

Definition with_point (frac : string) : string :=
  match frac with
  | EmptyString => EmptyString
  | _ => "." +:+ frac
  end.

(** Sign and at least two digits. *)
Definition show_exponent (x : Z) : string :=
  (if x <? 0 then "-" else "+") +:+
  (if Z.abs x <? 10 then "0" else "") +:+ show_uint (Z.abs_N x).

Definition format_g6 (n d : positive) : string :=
  let '(m, x) := significand_exponent n d in
  let ds := show_uint (Z.to_N m) in
  if (x <? -4) || (6 <=? x) then
    string_take 1 ds +:+ with_point (strip_zeros (string_drop 1 ds))
      +:+ "e" +:+ show_exponent x
  else if 0 <=? x then
    string_take (Z.to_nat (x + 1)) ds
      +:+ with_point (strip_zeros (string_drop (Z.to_nat (x + 1)) ds))
  else
    "0." +:+ replicate_char (Z.to_nat (- x - 1)) "0" +:+ strip_zeros ds.

(** [os << x] for a [double] [x]. *)
Definition show_double (x : Q) : string :=
  match Qnum x with
  | Z0 => "0"
  | Zpos n => format_g6 n (Qden x)
  | Zneg n => "-" +:+ format_g6 n (Qden x)
  end.

Example show_double_int : show_double 900 = "900"%string.
Proof. reflexivity. Qed.
Example show_double_frac : show_double (606777 # 10000) = "60.6777"%string.
Proof. reflexivity. Qed.
Example show_double_neg : show_double (- (3 # 2)) = "-1.5"%string.
Proof. reflexivity. Qed.
Example show_double_round : show_double (12345678 # 1000000) = "12.3457"%string.
Proof. reflexivity. Qed.
Example show_double_small : show_double (1 # 10000) = "0.0001"%string.
Proof. reflexivity. Qed.
Example show_double_sci_small : show_double (15 # 1000000) = "1.5e-05"%string.
Proof. reflexivity. Qed.
Example show_double_large : show_double 123456 = "123456"%string.
Proof. reflexivity. Qed.
Example show_double_sci_large : show_double 1234567 = "1.23457e+06"%string.
Proof. reflexivity. Qed.
Example show_double_carry : show_double (9999995 # 10) = "1e+06"%string.
Proof. reflexivity. Qed.
Example show_double_tie : show_double (2000005 # 2) = "1e+06"%string.
Proof. reflexivity. Qed.
Example show_double_zero : show_double 0 = "0"%string.
Proof. reflexivity. Qed.
Example show_double_leading_zeros :
  show_double (123456789 # 1000000000000) = "0.000123457"%string.
Proof. reflexivity. Qed.
Example show_double_long_exponent :
  show_double (inject_Z (10 ^ 100)) = "1e+100"%string.
Proof. vm_compute. reflexivity. Qed.

Lemma comma_free_strip_zeros (s : string) :
  comma_free s = true -> comma_free (strip_zeros s) = true.
Proof.
  induction s as [|c s IH]; simpl; [reflexivity|].
  intros H. apply andb_true_iff in H as [Hc Hs]. specialize (IH Hs).
  destruct (strip_zeros s) as [|c' t].
  - destruct (Ascii.eqb c "0"); simpl; [reflexivity|]. now rewrite Hc.
  - simpl in *. now rewrite Hc, IH.
Qed.

Lemma comma_free_with_point (s : string) :
  comma_free s = true -> comma_free (with_point s) = true.
Proof. destruct s; simpl; auto. Qed.

#[export] Hint Resolve comma_free_strip_zeros comma_free_with_point : csv.

Lemma comma_free_show_exponent (x : Z) : comma_free (show_exponent x) = true.
Proof.
  unfold show_exponent.
  destruct (x <? 0), (Z.abs x <? 10); auto 6 with csv.
Qed.

Lemma comma_free_format_g6 (n d : positive) : comma_free (format_g6 n d) = true.
Proof.
  unfold format_g6. destruct (significand_exponent n d) as [m x].
  pose proof comma_free_show_exponent.
  destruct ((x <? -4) || (6 <=? x)); [|destruct (0 <=? x)]; auto 8 with csv.
Qed.

Lemma comma_free_show_double (x : Q) : comma_free (show_double x) = true.
Proof.
  unfold show_double. pose proof comma_free_format_g6.
  destruct (Qnum x); auto with csv.
Qed.

#[export] Hint Resolve comma_free_show_double : csv.

End Show.

(** ** Types of the simulation engine that the code prints and compares *)

Module Ns3.
Import Text Show.

(** Modelled from the spec: [ApIdentifier], the engine's [Mac48Address]
    (its declaration is not part of this repository): six octets, compared
    with [==] and [!=], printed as six two-digit lowercase hexadecimal
    numbers separated by colons. *)
Record Mac48Address : Type := MkMac {
  octet0 : Byte.byte; octet1 : Byte.byte; octet2 : Byte.byte;
  octet3 : Byte.byte; octet4 : Byte.byte; octet5 : Byte.byte
}.

#[export] Instance byte_eq_dec : EqDecision Byte.byte := Byte.byte_eq_dec.

#[export] Instance Mac48Address_eq_dec : EqDecision Mac48Address.
Proof. solve_decision. Defined.

Definition hex_digits : list ascii := list_ascii_of_string "0123456789abcdef".

Definition hex_digit (n : N) : ascii := nth (N.to_nat n) hex_digits "f"%char.

Definition show_octet (b : Byte.byte) : string :=
  String (hex_digit (Byte.to_N b / 16))
    (String (hex_digit (Byte.to_N b mod 16)) EmptyString).

(** [os << addr] for a [Mac48Address]; [MacToString] of
    roaming-saturation.cc returns the same text. *)
Definition show_mac (a : Mac48Address) : string :=
  show_octet (octet0 a) +:+ ":" +:+ show_octet (octet1 a) +:+ ":" +:+
  show_octet (octet2 a) +:+ ":" +:+ show_octet (octet3 a) +:+ ":" +:+
  show_octet (octet4 a) +:+ ":" +:+ show_octet (octet5 a).

Definition MacToString (addr : Mac48Address) : string := show_mac addr.

Lemma comma_free_show_octet (b : Byte.byte) : comma_free (show_octet b) = true.
Proof. destruct b; reflexivity. Qed.

Lemma comma_free_show_mac (a : Mac48Address) : comma_free (show_mac a) = true.
Proof.
  unfold show_mac. pose proof comma_free_show_octet. auto 20 with csv.
Qed.

#[export] Hint Resolve comma_free_show_mac : csv.

(** Modelled from the spec: the engine's [Ipv4Address] ([sourceAddr],
    [destAddr] of a flow), a 32-bit number printed as four decimal octets
    separated by dots. *)
Definition Ipv4Address : Type := N.

Definition show_ipv4 (a : Ipv4Address) : string :=
  show_uint (N.land (N.shiftr a 24) 255) +:+ "." +:+
  show_uint (N.land (N.shiftr a 16) 255) +:+ "." +:+
  show_uint (N.land (N.shiftr a 8) 255) +:+ "." +:+
  show_uint (N.land a 255).

Lemma comma_free_show_ipv4 (a : Ipv4Address) : comma_free (show_ipv4 a) = true.
Proof. unfold show_ipv4. auto 20 with csv. Qed.

#[export] Hint Resolve comma_free_show_ipv4 : csv.

(** Modelled from the spec: the engine's [Time], a signed count of
    nanoseconds (the engine's default resolution); [GetSeconds] converts
    it to a [double] number of seconds. *)
Definition Time : Type := Z.

Definition GetSeconds (t : Time) : Q := t # 1000000000.

Definition Seconds (s : Z) : Time := s * 1000000000.

Arguments GetSeconds t%_Z.
Arguments Seconds s%_Z.

Example show_mac_example :
  show_mac (MkMac Byte.x00 Byte.x00 Byte.x00 Byte.x00 Byte.x00 Byte.x0a) = "00:00:00:00:00:0a"%string.
Proof. reflexivity. Qed.

Example show_ipv4_example : show_ipv4 167837953%N = "10.1.1.1"%string.
Proof. reflexivity. Qed.

End Ns3.

(** ** AssociationTracker: the association callbacks and their globals *)

Module Tracker.
Import Text Show Ns3.

(** The file-scope variables the callbacks share. *)
Record Globals : Type := MkGlobals {
  handoverFile : list string;
  handoverCount : N;
  currentAp : gmap N Mac48Address
}.

Definition UINT32_MODULUS : N := 2 ^ 32.

(** [handoverFile << ... << std::endl] *)
Definition handoverFile_write (line : string) (g : Globals) : Globals :=
  {| handoverFile := handoverFile g ++ [line];
     handoverCount := handoverCount g;
     currentAp := currentAp g |}.

(** [handoverCount++] on a [uint32_t]. *)
Definition handoverCount_incr (g : Globals) : Globals :=
  {| handoverFile := handoverFile g;
     handoverCount := ((handoverCount g + 1) mod UINT32_MODULUS)%N;
     currentAp := currentAp g |}.

(** [currentAp[nodeId] = apAddr] *)
Definition currentAp_assign (nodeId : N) (apAddr : Mac48Address) (g : Globals)
  : Globals :=
  {| handoverFile := handoverFile g;
     handoverCount := handoverCount g;
     currentAp := <[nodeId := apAddr]> (currentAp g) |}.

Definition header : string := "Time,EventType,StationID,AccessPoint1,AccessPoint2".

(** The three kinds of line the callbacks write, as the chains of [<<]
    build them. *)
Definition handover_line (currentTime : Q) (nodeId : N) (fromAp toAp : Mac48Address)
  : string :=
  show_double currentTime +:+ ",HANDOVER," +:+ show_uint nodeId +:+ "," +:+
  show_mac fromAp +:+ "," +:+ show_mac toAp.

Definition assoc_line (currentTime : Q) (nodeId : N) (apAddr : Mac48Address)
  : string :=
  show_double currentTime +:+ ",ASSOC," +:+ show_uint nodeId +:+ "," +:+
  show_mac apAddr.

Definition deassoc_line (currentTime : Q) (nodeId : N) (apAddr : Mac48Address)
  : string :=
  show_double currentTime +:+ ",DEASSOC," +:+ show_uint nodeId +:+ "," +:+
  show_mac apAddr.

(** The test of the [if]:
    [currentAp.find(nodeId) != currentAp.end() && currentAp[nodeId] != apAddr].
    It yields the recorded access point when the test holds. *)
Definition handover_from (nodeId : N) (apAddr : Mac48Address) (g : Globals)
  : option Mac48Address :=
  match currentAp g !! nodeId with
  | Some prev => if decide (prev <> apAddr) then Some prev else None
  | None => None
  end.

(** [AssociationCallback], entered with [nodeId] already read from the
    context path and [currentTime = Simulator::Now().GetSeconds()]: on a
    handover, count it and write the HANDOVER line (where [currentAp[nodeId]]
    is still the recorded access point); then, in every case, record
    [apAddr] and write the ASSOC line. *)
Definition AssociationCallback (currentTime : Q) (nodeId : N)
    (apAddr : Mac48Address) (g : Globals) : Globals :=
  let g1 :=
    match handover_from nodeId apAddr g with
    | Some recorded =>
        handoverFile_write (handover_line currentTime nodeId recorded apAddr)
          (handoverCount_incr g)
    | None => g
    end in
  let g2 := currentAp_assign nodeId apAddr g1 in
  handoverFile_write (assoc_line currentTime nodeId apAddr) g2.

(** [DisassociationCallback], entered the same way. *)
Definition DisassociationCallback (currentTime : Q) (nodeId : N)
    (apAddr : Mac48Address) (g : Globals) : Globals :=
  handoverFile_write (deassoc_line currentTime nodeId apAddr) g.

(** The globals once [main] has opened the file and written its header,
    before any callback runs. *)
Definition initial_globals : Globals :=
  {| handoverFile := [header]; handoverCount := 0%N; currentAp := ∅ |}.

(** The signals the engine delivers, in virtual-time order. *)
Inductive Event : Type :=
  | Associate (time : Q) (stationId : N) (apId : Mac48Address)
  | Disassociate (time : Q) (stationId : N) (apId : Mac48Address).

Definition handle (g : Globals) (e : Event) : Globals :=
  match e with
  | Associate t s ap => AssociationCallback t s ap g
  | Disassociate t s ap => DisassociationCallback t s ap g
  end.

Definition run (evs : list Event) (g : Globals) : Globals :=
  fold_left handle evs g.

(** The access point of the latest [Associate] for station [s] in a
    history, if there is one. *)
Fixpoint last_associated (s : N) (evs : list Event) : option Mac48Address :=
  match evs with
  | [] => None
  | e :: evs' =>
      match last_associated s evs' with
      | Some ap => Some ap
      | None =>
          match e with
          | Associate _ s' ap => if decide (s' = s) then Some ap else None
          | Disassociate _ _ _ => None
          end
      end
  end.

(** Station [s] has not associated yet. *)
Definition never_associated (s : N) (evs : list Event) : Prop :=
  forall t ap, Associate t s ap ∉ evs.

Definition ap1 : Mac48Address :=
  MkMac Byte.x00 Byte.x00 Byte.x00 Byte.x00 Byte.x00 Byte.x01.
Definition ap2 : Mac48Address :=
  MkMac Byte.x00 Byte.x00 Byte.x00 Byte.x00 Byte.x00 Byte.x02.

(** The spec's scenarios 1 to 3: associate, hand over, re-associate. *)
Definition scenario : list Event :=
  [Associate 1 0%N ap1; Associate 5 0%N ap2; Associate 8 0%N ap2].

Example scenario_file :
  handoverFile (run scenario initial_globals) =
    [ header;
      "1,ASSOC,0,00:00:00:00:00:01";
      "5,HANDOVER,0,00:00:00:00:00:01,00:00:00:00:00:02";
      "5,ASSOC,0,00:00:00:00:00:02";
      "8,ASSOC,0,00:00:00:00:00:02" ]%string.
Proof. vm_compute. reflexivity. Qed.

Example scenario_count : handoverCount (run scenario initial_globals) = 1%N.
Proof. vm_compute. reflexivity. Qed.

(** *** How the callbacks act on each global *)

Lemma handover_from_Some (s : N) (ap prev : Mac48Address) (g : Globals) :
  currentAp g !! s = Some prev -> prev <> ap -> handover_from s ap g = Some prev.
Proof.
  intros Hs Hne. unfold handover_from. rewrite Hs.
  destruct (decide (prev <> ap)); [reflexivity|contradiction].
Qed.

Lemma handover_from_None (s : N) (ap : Mac48Address) (g : Globals) :
  currentAp g !! s = None \/ currentAp g !! s = Some ap ->
  handover_from s ap g = None.
Proof.
  unfold handover_from. intros [Hs|Hs]; rewrite Hs; [reflexivity|].
  destruct (decide (ap <> ap)); [congruence|reflexivity].
Qed.

Lemma currentAp_AssociationCallback (t : Q) (s : N) (ap : Mac48Address) (g : Globals) :
  currentAp (AssociationCallback t s ap g) = <[s := ap]> (currentAp g).
Proof.
  unfold AssociationCallback. destruct (handover_from s ap g); reflexivity.
Qed.

Lemma handoverCount_AssociationCallback (t : Q) (s : N) (ap : Mac48Address) (g : Globals) :
  handoverCount (AssociationCallback t s ap g) =
    match handover_from s ap g with
    | Some _ => ((handoverCount g + 1) mod UINT32_MODULUS)%N
    | None => handoverCount g
    end.
Proof.
  unfold AssociationCallback. destruct (handover_from s ap g); reflexivity.
Qed.

Lemma handoverFile_AssociationCallback (t : Q) (s : N) (ap : Mac48Address) (g : Globals) :
  handoverFile (AssociationCallback t s ap g) =
    handoverFile g ++
    match handover_from s ap g with
    | Some prev => [handover_line t s prev ap; assoc_line t s ap]
    | None => [assoc_line t s ap]
    end.
Proof.
  unfold AssociationCallback. destruct (handover_from s ap g); simpl;
    [now rewrite <- app_assoc|reflexivity].
Qed.

(** *** The recorded access point follows the history *)

Lemma currentAp_run (s : N) (evs : list Event) (g : Globals) :
  currentAp (run evs g) !! s =
    match last_associated s evs with
    | Some ap => Some ap
    | None => currentAp g !! s
    end.
Proof.
  revert g. induction evs as [|e evs IH]; intros g; [reflexivity|].
  change (run (e :: evs) g) with (run evs (handle g e)).
  rewrite IH. cbn [last_associated].
  destruct (last_associated s evs); [reflexivity|].
  destruct e as [t s' ap|t s' ap]; cbn [handle].
  - rewrite currentAp_AssociationCallback.
    destruct (decide (s' = s)) as [->|Hne].
    + apply lookup_insert_eq.
    + now apply lookup_insert_ne.
  - reflexivity.
Qed.

Lemma last_associated_never (s : N) (evs : list Event) :
  never_associated s evs -> last_associated s evs = None.
Proof.
  induction evs as [|e evs IH]; intros Hn; [reflexivity|].
  simpl. rewrite IH.
  - destruct e as [t s' ap|]; [|reflexivity].
    destruct (decide (s' = s)) as [->|]; [|reflexivity].
    exfalso. apply (Hn t ap). left.
  - intros t ap Hin. apply (Hn t ap). now right.
Qed.

Lemma currentAp_initial_run (s : N) (evs : list Event) :
  currentAp (run evs initial_globals) !! s = last_associated s evs.
Proof.
  rewrite currentAp_run. destruct (last_associated s evs); reflexivity.
Qed.

(** *** The counter stays below the number of events handled *)

Lemma handoverCount_handle_le (g : Globals) (e : Event) :
  (handoverCount (handle g e) <= handoverCount g + 1)%N.
Proof.
  destruct e as [t s ap|t s ap]; cbn [handle].
  - rewrite handoverCount_AssociationCallback.
    destruct (handover_from s ap g); [|lia].
    apply N.Div0.mod_le.
  - simpl. lia.
Qed.

Lemma handoverCount_run_le (evs : list Event) (g : Globals) :
  (handoverCount (run evs g) <= handoverCount g + N.of_nat (length evs))%N.
Proof.
  revert g. induction evs as [|e evs IH]; intros g; [simpl; lia|].
  change (run (e :: evs) g) with (run evs (handle g e)).
  specialize (IH (handle g e)). pose proof (handoverCount_handle_le g e).
  cbn [length]. lia.
Qed.

(** *** The fields of each kind of line *)

Lemma handover_line_fields (t : Q) (s : N) (a b : Mac48Address) :
  fields (handover_line t s a b) =
    [show_double t; "HANDOVER"; show_uint s; show_mac a; show_mac b]%string.
Proof.
  change (handover_line t s a b) with
    (join [show_double t; "HANDOVER"; show_uint s; show_mac a; show_mac b]%string).
  apply fields_join; [discriminate|]. cbn [forallb].
  rewrite comma_free_show_double, comma_free_show_uint, !comma_free_show_mac.
  reflexivity.
Qed.

Lemma assoc_line_fields (t : Q) (s : N) (a : Mac48Address) :
  fields (assoc_line t s a) =
    [show_double t; "ASSOC"; show_uint s; show_mac a]%string.
Proof.
  change (assoc_line t s a) with
    (join [show_double t; "ASSOC"; show_uint s; show_mac a]%string).
  apply fields_join; [discriminate|]. cbn [forallb].
  rewrite comma_free_show_double, comma_free_show_uint, !comma_free_show_mac.
  reflexivity.
Qed.

Lemma deassoc_line_fields (t : Q) (s : N) (a : Mac48Address) :
  fields (deassoc_line t s a) =
    [show_double t; "DEASSOC"; show_uint s; show_mac a]%string.
Proof.
  change (deassoc_line t s a) with
    (join [show_double t; "DEASSOC"; show_uint s; show_mac a]%string).
  apply fields_join; [discriminate|]. cbn [forallb].
  rewrite comma_free_show_double, comma_free_show_uint, !comma_free_show_mac.
  reflexivity.
Qed.

(** *** The rows behind the lines *)

(** A logged row, before it is rendered as text; [T] is the type of its
    time: [Q] for the [double] the callback holds, [string] for the text
    that ends up in the file. *)
Inductive LogRow (T : Type) : Type :=
  | HANDOVER (time : T) (stationId : N) (accessPoint1 accessPoint2 : Mac48Address)
  | ASSOC (time : T) (stationId : N) (accessPoint1 : Mac48Address)
  | DEASSOC (time : T) (stationId : N) (accessPoint1 : Mac48Address).

Arguments HANDOVER {T} time stationId accessPoint1 accessPoint2.
Arguments ASSOC {T} time stationId accessPoint1.
Arguments DEASSOC {T} time stationId accessPoint1.

Abbreviation Row := (LogRow Q).

Definition render (r : Row) : string :=
  match r with
  | HANDOVER t s a b => handover_line t s a b
  | ASSOC t s a => assoc_line t s a
  | DEASSOC t s a => deassoc_line t s a
  end.

(** The rows one event adds, given the globals it meets. *)
Definition rows_of_event (g : Globals) (e : Event) : list Row :=
  match e with
  | Associate t s ap =>
      match handover_from s ap g with
      | Some prev => [HANDOVER t s prev ap; ASSOC t s ap]
      | None => [ASSOC t s ap]
      end
  | Disassociate t s ap => [DEASSOC t s ap]
  end.

(** The rows a history adds, in order. *)
Fixpoint logged_rows (evs : list Event) (g : Globals) : list Row :=
  match evs with
  | [] => []
  | e :: evs' => rows_of_event g e ++ logged_rows evs' (handle g e)
  end.

Lemma handoverFile_handle (g : Globals) (e : Event) :
  handoverFile (handle g e) = handoverFile g ++ map render (rows_of_event g e).
Proof.
  destruct e as [t s ap|t s ap]; cbn [handle rows_of_event].
  - rewrite handoverFile_AssociationCallback.
    destruct (handover_from s ap g); reflexivity.
  - reflexivity.
Qed.

Lemma handoverFile_run (evs : list Event) (g : Globals) :
  handoverFile (run evs g) = handoverFile g ++ map render (logged_rows evs g).
Proof.
  revert g. induction evs as [|e evs IH]; intros g.
  - simpl. now rewrite app_nil_r.
  - change (run (e :: evs) g) with (run evs (handle g e)).
    rewrite IH, handoverFile_handle. cbn [logged_rows].
    now rewrite map_app, app_assoc.
Qed.

(** The event type of a line is its second field. *)
Definition event_type (line : string) : option string := fields line !! 1%nat.

(** What a data line of the file looks like: five fields when it is a
    HANDOVER line, four when it is an ASSOC or a DEASSOC line. *)
Definition data_line_shape (line : string) : Prop :=
  (event_type line = Some "HANDOVER"%string /\ length (fields line) = 5%nat) \/
  ((event_type line = Some "ASSOC"%string \/ event_type line = Some "DEASSOC"%string)
   /\ length (fields line) = 4%nat).

Lemma render_shape (r : Row) : data_line_shape (render r).
Proof.
  unfold data_line_shape, event_type. destruct r as [t s a b|t s a|t s a]; cbn [render].
  - left. now rewrite handover_line_fields.
  - right. rewrite assoc_line_fields. split; [now left|reflexivity].
  - right. rewrite deassoc_line_fields. split; [now right|reflexivity].
Qed.

(** *** Properties of the association callbacks *)

(** C1. Handling [Associate(t, s, ap)] after any history adds exactly 1 to
    the handover counter when station [s] has a recorded access point that
    differs from [ap], and leaves the counter as it is otherwise; the
    recorded access point is the one of the latest [Associate] for [s], so
    the first [Associate] of a station never counts.  The counter is a
    [uint32_t]: adding 1 is modulo [2^32], which is plain [+ 1] as long as
    the counter is below [2^32 - 1], as it is after any history of fewer
    than [2^32 - 1] events. *)
Theorem C1_handover_counter (pre : list Event) (t : Q) (s : N) (ap : Mac48Address) :
  let g := run pre initial_globals in
  let g' := AssociationCallback t s ap g in
  currentAp g !! s = last_associated s pre /\
  (forall prev, currentAp g !! s = Some prev -> prev <> ap ->
     handoverCount g' = ((handoverCount g + 1) mod 2 ^ 32)%N /\
     ((handoverCount g < 2 ^ 32 - 1)%N ->
      handoverCount g' = (handoverCount g + 1)%N)) /\
  (currentAp g !! s = None \/ currentAp g !! s = Some ap ->
     handoverCount g' = handoverCount g) /\
  (never_associated s pre -> handoverCount g' = handoverCount g) /\
  ((N.of_nat (length pre) < 2 ^ 32 - 1)%N -> (handoverCount g < 2 ^ 32 - 1)%N).
Proof.
  intros g g'. subst g'.
  split; [apply currentAp_initial_run|].
  rewrite handoverCount_AssociationCallback.
  split; [|split; [|split]].
  - intros prev Hs Hne. rewrite (handover_from_Some _ _ _ _ Hs Hne).
    split; [reflexivity|].
    intros Hlt. apply N.mod_small. unfold UINT32_MODULUS. lia.
  - intros Hs. now rewrite (handover_from_None _ _ _ Hs).
  - intros Hn. rewrite handover_from_None; [reflexivity|].
    left. subst g. rewrite currentAp_initial_run.
    now apply last_associated_never.
  - intros Hlen. subst g.
    pose proof (handoverCount_run_le pre initial_globals) as Hle.
    cbn [initial_globals handoverCount] in Hle. lia.
Qed.

Lemma C1_handover_counter_witness :
  handoverCount (AssociationCallback 5 0%N ap2 (run [Associate 1 0%N ap1] initial_globals)) =
    (handoverCount (run [Associate 1 0%N ap1] initial_globals) + 1)%N /\
  handoverCount (AssociationCallback 1 0%N ap1 (run [] initial_globals)) =
    handoverCount (run [] initial_globals).
Proof.
  split.
  - apply (proj1 (proj2 (C1_handover_counter [Associate 1 0%N ap1] 5 0%N ap2)) ap1).
    + vm_compute. reflexivity.
    + discriminate.
    + vm_compute. reflexivity.
  - apply (proj1 (proj2 (proj2 (proj2 (C1_handover_counter [] 1 0%N ap1))))).
    intros t ap Hin. inversion Hin.
Defined.

(** C6. After [AssociationCallback] for station [s] and access point [ap],
    whatever the globals were, the entry of [s] in [currentAp] is [ap] and
    the entry of every other station is what it was. *)
Theorem C6_currentAp_updated (g : Globals) (t : Q) (s : N) (ap : Mac48Address) :
  let g' := AssociationCallback t s ap g in
  currentAp g' !! s = Some ap /\
  (forall s', s' <> s -> currentAp g' !! s' = currentAp g !! s').
Proof.
  intros g'. subst g'. rewrite currentAp_AssociationCallback. split.
  - apply lookup_insert_eq.
  - intros s' Hne. apply lookup_insert_ne. congruence.
Qed.

Lemma C6_currentAp_updated_witness :
  currentAp (AssociationCallback 5 0%N ap2 (run scenario initial_globals)) !! 7%N =
    currentAp (run scenario initial_globals) !! 7%N.
Proof.
  apply (proj2 (C6_currentAp_updated (run scenario initial_globals) 5 0%N ap2)).
  discriminate.
Defined.

(** C7. [DisassociationCallback] for station [s] appends exactly one line,
    a DEASSOC line for [s], and changes neither [currentAp] (not even the
    entry of [s]) nor the handover counter. *)
Theorem C7_disassociation_frame (g : Globals) (t : Q) (s : N) (ap : Mac48Address) :
  let g' := DisassociationCallback t s ap g in
  handoverFile g' = handoverFile g ++ [deassoc_line t s ap] /\
  fields (deassoc_line t s ap) =
    [show_double t; "DEASSOC"; show_uint s; show_mac ap]%string /\
  currentAp g' = currentAp g /\
  handoverCount g' = handoverCount g.
Proof.
  intros g'. subst g'. repeat split. apply deassoc_line_fields.
Qed.

(** C8. When station [s] has a recorded access point [prev] that differs
    from [ap], [AssociationCallback] appends exactly two lines: a HANDOVER
    line whose fourth field is [prev] and whose fifth field is [ap], then
    an ASSOC line for [ap].  In the other two cases (no recorded access
    point, or the same one) it appends exactly one line, an ASSOC line. *)
Theorem C8_rows_appended (g : Globals) (t : Q) (s : N) (ap : Mac48Address) :
  let g' := AssociationCallback t s ap g in
  (forall prev, currentAp g !! s = Some prev -> prev <> ap ->
     handoverFile g' =
       handoverFile g ++ [handover_line t s prev ap; assoc_line t s ap] /\
     fields (handover_line t s prev ap) =
       [show_double t; "HANDOVER"; show_uint s; show_mac prev; show_mac ap]%string) /\
  (currentAp g !! s = None \/ currentAp g !! s = Some ap ->
     handoverFile g' = handoverFile g ++ [assoc_line t s ap]) /\
  fields (assoc_line t s ap) =
    [show_double t; "ASSOC"; show_uint s; show_mac ap]%string.
Proof.
  intros g'. subst g'. rewrite handoverFile_AssociationCallback.
  split; [|split].
  - intros prev Hs Hne. rewrite (handover_from_Some _ _ _ _ Hs Hne).
    split; [reflexivity|apply handover_line_fields].
  - intros Hs. now rewrite (handover_from_None _ _ _ Hs).
  - apply assoc_line_fields.
Qed.

Lemma C8_rows_appended_witness :
  handoverFile (AssociationCallback 5 0%N ap2 (run [Associate 1 0%N ap1] initial_globals)) =
    handoverFile (run [Associate 1 0%N ap1] initial_globals) ++
    [handover_line 5 0%N ap1 ap2; assoc_line 5 0%N ap2].
Proof.
  apply (proj1 (C8_rows_appended (run [Associate 1 0%N ap1] initial_globals) 5 0%N ap2) ap1).
  - vm_compute. reflexivity.
  - discriminate.
Defined.

(** C10. The header has five columns; every line written after it is
    either a HANDOVER line with five fields or an ASSOC or DEASSOC line
    with exactly four fields (no fifth field, not even an empty one), one
    fewer than the header declares. *)
Theorem C10_field_counts (evs : list Event) :
  length (fields header) = 5%nat /\
  exists lines,
    handoverFile (run evs initial_globals) = header :: lines /\
    Forall data_line_shape lines /\
    Forall (fun line =>
              event_type line <> Some "HANDOVER"%string ->
              (length (fields line) = 4 /\
               length (fields line) < length (fields header))%nat) lines.
Proof.
  split; [reflexivity|].
  exists (map render (logged_rows evs initial_globals)).
  split; [apply handoverFile_run|].
  split.
  - apply Forall_forall. intros line Hin.
    apply list_elem_of_In, in_map_iff in Hin as (r & <- & _). apply render_shape.
  - apply Forall_forall. intros line Hin.
    apply list_elem_of_In, in_map_iff in Hin as (r & <- & _).
    intros Hty. destruct (render_shape r) as [[Hh _]|[_ Hlen]]; [contradiction|].
    rewrite Hlen. change (length (fields header)) with 5%nat. lia.
Qed.

End Tracker.

(** ** PropagationModel: [CalculateRssi] *)

Module Rssi.
Local Open Scope R_scope.

(** Modelled from the spec: a position [(x, y, z)], the engine's [Vector]. *)
Record Vector : Type := MkVector { x : R; y : R; z : R }.

(** [std::log10] *)
Definition log10 (v : R) : R := ln v / ln 10.

(** The propagation parameters; each [CalculateRssi] declares them as
    local constants with these values. *)
Definition txPowerDbm : R := 16.
Definition exponent : R := 3.
Definition referenceDistance : R := 1.
Definition referenceLoss : R := 466777 / 10000.

(** The Euclidean norm of [rx - tx]. *)
Definition euclideanNorm (tx rx : Vector) : R :=
  sqrt ((x rx - x tx) ^ 2 + (y rx - y tx) ^ 2 + (z rx - z tx) ^ 2).

(** wifi-roaming-v4.cc *)
Module WifiRoamingV4.

Definition CalculateDistance (a b : Vector) : R :=
  let dx := x b - x a in
  let dy := y b - y a in
  let dz := z b - z a in
  sqrt (dx * dx + dy * dy + dz * dz).

Definition CalculateRssi (txPosition rxPosition : Vector) : R :=
  let distance := CalculateDistance txPosition rxPosition in
  let pathLossDb :=
    if Rle_dec distance referenceDistance then referenceLoss
    else referenceLoss + 10 * exponent * log10 (distance / referenceDistance) in
  let rssi := txPowerDbm - pathLossDb in
  rssi.

End WifiRoamingV4.

(** roaming-saturation.cc: the distance is computed in place, with
    [std::pow(_, 2)] on the differences taken the other way round. *)
Module RoamingSaturation.

Definition CalculateRssi (txPosition rxPosition : Vector) : R :=
  let distance :=
    sqrt ((x txPosition - x rxPosition) ^ 2
          + (y txPosition - y rxPosition) ^ 2
          + (z txPosition - z rxPosition) ^ 2) in
  let pathLossDb :=
    if Rle_dec distance referenceDistance then referenceLoss
    else referenceLoss + 10 * exponent * log10 (distance / referenceDistance) in
  let rssi := txPowerDbm - pathLossDb in
  rssi.

End RoamingSaturation.

(** What both functions compute once the distance is known. *)
Definition rssi_at (distance : R) : R :=
  txPowerDbm -
  (if Rle_dec distance referenceDistance then referenceLoss
   else referenceLoss + 10 * exponent * log10 (distance / referenceDistance)).

Lemma CalculateDistance_norm (a b : Vector) :
  WifiRoamingV4.CalculateDistance a b = euclideanNorm a b.
Proof. unfold WifiRoamingV4.CalculateDistance, euclideanNorm. f_equal. ring. Qed.

Lemma V4_rssi_at (tx rx : Vector) :
  WifiRoamingV4.CalculateRssi tx rx = rssi_at (euclideanNorm tx rx).
Proof.
  unfold WifiRoamingV4.CalculateRssi. now rewrite CalculateDistance_norm.
Qed.

Lemma Saturation_rssi_at (tx rx : Vector) :
  RoamingSaturation.CalculateRssi tx rx = rssi_at (euclideanNorm tx rx).
Proof.
  unfold RoamingSaturation.CalculateRssi, rssi_at, euclideanNorm.
  replace ((x tx - x rx) ^ 2 + (y tx - y rx) ^ 2 + (z tx - z rx) ^ 2)
    with ((x rx - x tx) ^ 2 + (y rx - y tx) ^ 2 + (z rx - z tx) ^ 2) by ring.
  reflexivity.
Qed.

Lemma euclideanNorm_same (p : Vector) : euclideanNorm p p = 0.
Proof.
  unfold euclideanNorm.
  replace ((x p - x p) ^ 2 + (y p - y p) ^ 2 + (z p - z p) ^ 2) with 0 by ring.
  apply sqrt_0.
Qed.

Lemma rssi_at_near (d : R) :
  d <= referenceDistance -> rssi_at d = txPowerDbm - referenceLoss.
Proof.
  intros Hd. unfold rssi_at.
  destruct (Rle_dec d referenceDistance); [reflexivity|contradiction].
Qed.

Lemma rssi_at_far (d : R) :
  referenceDistance < d ->
  rssi_at d =
    txPowerDbm - (referenceLoss + 10 * exponent * log10 (d / referenceDistance)).
Proof.
  intros Hd. unfold rssi_at.
  destruct (Rle_dec d referenceDistance); [lra|reflexivity].
Qed.

Lemma ln_10_pos : 0 < ln 10.
Proof. rewrite <- ln_1. apply ln_increasing; lra. Qed.

Lemma log10_increasing (a b : R) : 0 < a -> a < b -> log10 a < log10 b.
Proof.
  intros Ha Hab. unfold log10.
  apply Rmult_lt_compat_r; [apply Rinv_0_lt_compat, ln_10_pos|].
  now apply ln_increasing.
Qed.

Lemma log10_10 : log10 10 = 1.
Proof. unfold log10. field. pose proof ln_10_pos. lra. Qed.

Lemma rssi_at_decreasing (d1 d2 : R) :
  referenceDistance < d1 -> d1 < d2 -> rssi_at d2 < rssi_at d1.
Proof.
  intros H1 H12. unfold referenceDistance in *.
  rewrite !rssi_at_far by (unfold referenceDistance; lra).
  unfold referenceDistance, exponent.
  assert (log10 (d1 / 1) < log10 (d2 / 1)) by (apply log10_increasing; lra).
  lra.
Qed.

(** C2. For all positions, with [d] the Euclidean distance between them,
    [CalculateRssi] (of either file) returns [txPowerDbm - referenceLoss]
    when [d <= referenceDistance], in particular at distance zero, and
    [txPowerDbm - (referenceLoss + 10 * exponent * log10 (d /
    referenceDistance))] when [d > referenceDistance], the parameters being
    16, 3, 1 and 46.6777. *)
Theorem C2_rssi_formula (tx rx : Vector) :
  let d := euclideanNorm tx rx in
  RoamingSaturation.CalculateRssi tx rx = WifiRoamingV4.CalculateRssi tx rx /\
  (d <= referenceDistance ->
     WifiRoamingV4.CalculateRssi tx rx = txPowerDbm - referenceLoss) /\
  (d > referenceDistance ->
     WifiRoamingV4.CalculateRssi tx rx =
       txPowerDbm - (referenceLoss + 10 * exponent * log10 (d / referenceDistance))) /\
  WifiRoamingV4.CalculateRssi tx tx = txPowerDbm - referenceLoss /\
  (txPowerDbm, exponent, referenceDistance, referenceLoss) = (16, 3, 1, 466777 / 10000).
Proof.
  intros d. subst d. rewrite Saturation_rssi_at, !V4_rssi_at.
  split; [reflexivity|]. split; [apply rssi_at_near|].
  split; [apply rssi_at_far|]. split; [|reflexivity].
  apply rssi_at_near. rewrite euclideanNorm_same. unfold referenceDistance. lra.
Qed.

Lemma euclideanNorm_x_axis (d : R) :
  0 <= d -> euclideanNorm (MkVector 0 0 0) (MkVector d 0 0) = d.
Proof.
  intros Hd. unfold euclideanNorm. cbn [x y z].
  replace ((d - 0) ^ 2 + (0 - 0) ^ 2 + (0 - 0) ^ 2) with (d * d) by ring.
  now apply sqrt_square.
Qed.

(** The spec's scenario 4: ten metres apart, the RSSI is -60.6777 dBm. *)
Lemma C2_rssi_formula_witness :
  WifiRoamingV4.CalculateRssi (MkVector 0 0 0) (MkVector 10 0 0) = - (606777 / 10000).
Proof.
  rewrite (proj1 (proj2 (proj2 (C2_rssi_formula (MkVector 0 0 0) (MkVector 10 0 0))))).
  - rewrite euclideanNorm_x_axis by lra.
    unfold txPowerDbm, referenceLoss, exponent, referenceDistance.
    replace (10 / 1) with 10 by field. rewrite log10_10. field.
  - rewrite euclideanNorm_x_axis by lra. unfold referenceDistance. lra.
Defined.

(** C3. Beyond the reference distance the RSSI does not increase with
    distance: for positions at distances [d1 < d2], both greater than
    [referenceDistance], the RSSI at [d1] is at least the RSSI at [d2]. *)
Theorem C3_rssi_monotone (tx1 rx1 tx2 rx2 : Vector) :
  referenceDistance < euclideanNorm tx1 rx1 ->
  euclideanNorm tx1 rx1 < euclideanNorm tx2 rx2 ->
  WifiRoamingV4.CalculateRssi tx1 rx1 >= WifiRoamingV4.CalculateRssi tx2 rx2 /\
  RoamingSaturation.CalculateRssi tx1 rx1 >= RoamingSaturation.CalculateRssi tx2 rx2.
Proof.
  intros H1 H12. rewrite !Saturation_rssi_at, !V4_rssi_at.
  pose proof (rssi_at_decreasing _ _ H1 H12). lra.
Qed.

Lemma C3_rssi_monotone_witness :
  WifiRoamingV4.CalculateRssi (MkVector 0 0 0) (MkVector 2 0 0) >=
  WifiRoamingV4.CalculateRssi (MkVector 0 0 0) (MkVector 10 0 0).
Proof.
  apply (C3_rssi_monotone (MkVector 0 0 0) (MkVector 2 0 0)
                          (MkVector 0 0 0) (MkVector 10 0 0)).
  - rewrite euclideanNorm_x_axis by lra. unfold referenceDistance. lra.
  - rewrite !euclideanNorm_x_axis by lra. lra.
Defined.

End Rssi.

(** ** FlowStatsAggregator: the loop over the flow snapshot in [main] *)

Module FlowStatsAggregator.
Import Text Show Ns3.
Local Open Scope Q_scope.

Definition FlowId : Type := N.

(** Modelled from the spec: the engine's per-flow record
    ([FlowMonitor::FlowStats]), with the fields the loop reads. *)
Record FlowStats : Type := MkFlowStats {
  timeFirstTxPacket : Time;
  timeLastRxPacket : Time;
  delaySum : Time;
  jitterSum : Time;
  lastDelay : Time;
  txBytes : N;
  rxBytes : N;
  txPackets : N;
  rxPackets : N;
  lostPackets : N
}.

(** Modelled from the spec: what the classifier knows of a flow
    ([Ipv4FlowClassifier::FiveTuple]); the loop prints the two addresses. *)
Record FiveTuple : Type := MkFiveTuple {
  sourceAddress : Ipv4Address;
  destinationAddress : Ipv4Address
}.

(** Conversion of an unsigned counter to [double]. *)
Definition to_double (n : N) : Q := inject_Z (Z.of_N n).

(** [double duration =
      (timeLastRxPacket - timeFirstTxPacket).GetSeconds();] *)
Definition duration (st : FlowStats) : Q :=
  GetSeconds (timeLastRxPacket st - timeFirstTxPacket st)%Z.

(** [throughput = 0; if (duration > 0) throughput =
      rxBytes * 8.0 / duration / 1000;] (a conditional expression in
    roaming-saturation.cc) *)
Definition throughput (st : FlowStats) : Q :=
  if Qlt_le_dec 0 (duration st)
  then to_double (rxBytes st) * 8 / duration st / 1000
  else 0.

(** [(rxPackets > 0 ? delaySum.GetSeconds() / rxPackets : 0)] *)
Definition mean_delay (st : FlowStats) : Q :=
  if (0 <? rxPackets st)%N
  then GetSeconds (delaySum st) / to_double (rxPackets st)
  else 0.

Definition flowCsv_header : string :=
  "FlowID,Source,Destination,TxPackets,RxPackets,LostPackets,DelaySum,JitterSum,LastDelay,TxBytes,RxBytes,Duration,Throughput(Kbps)".

(** The line written to [flowCsv] for one flow. *)
Definition flowCsv_line (id : FlowId) (t : FiveTuple) (st : FlowStats) : string :=
  show_uint id +:+ "," +:+
  show_ipv4 (sourceAddress t) +:+ "," +:+
  show_ipv4 (destinationAddress t) +:+ "," +:+
  show_uint (txPackets st) +:+ "," +:+
  show_uint (rxPackets st) +:+ "," +:+
  show_uint (lostPackets st) +:+ "," +:+
  show_double (GetSeconds (delaySum st)) +:+ "," +:+
  show_double (GetSeconds (jitterSum st)) +:+ "," +:+
  show_double (GetSeconds (lastDelay st)) +:+ "," +:+
  show_uint (txBytes st) +:+ "," +:+
  show_uint (rxBytes st) +:+ "," +:+
  show_double (duration st) +:+ "," +:+
  show_double (throughput st).

(** The lines written to [std::cout] for one flow. *)
Definition cout_lines (id : FlowId) (t : FiveTuple) (st : FlowStats) : list string :=
  [ "Flux " +:+ show_uint id +:+ " (" +:+ show_ipv4 (sourceAddress t) +:+ " -> "
      +:+ show_ipv4 (destinationAddress t) +:+ ")";
    "  Tx Packets: " +:+ show_uint (txPackets st);
    "  Rx Packets: " +:+ show_uint (rxPackets st);
    "  Lost Packets: " +:+ show_uint (lostPackets st);
    "  Throughput: " +:+ show_double (throughput st) +:+ " kbps";
    "  Mean Delay: " +:+ show_double (mean_delay st) +:+ " s" ]%string.

(** The two streams the loop writes. *)
Record Streams : Type := MkStreams {
  flowCsv : list string;
  cout : list string
}.

(** One iteration of the loop. *)
Definition loop_body (classifier : FlowId -> FiveTuple) (out : Streams)
    (flow : FlowId * FlowStats) : Streams :=
  let t := classifier (fst flow) in
  {| flowCsv := flowCsv out ++ [flowCsv_line (fst flow) t (snd flow)];
     cout := cout out ++ cout_lines (fst flow) t (snd flow) |}.

(** The loop over [stats], the entries of the snapshot in the order of the
    map's iterator (ascending flow id), starting once the header is
    written. *)
Definition flow_stats_loop (classifier : FlowId -> FiveTuple)
    (stats : list (FlowId * FlowStats)) : Streams :=
  fold_left (loop_body classifier) stats
    {| flowCsv := [flowCsv_header]; cout := [] |}.

(** The spec's scenario 5: 900000 bytes received between 1 s and 9 s. *)
Definition scenario_flow : FlowStats :=
  {| timeFirstTxPacket := Seconds 1; timeLastRxPacket := Seconds 9;
     delaySum := Seconds 2; jitterSum := 0%Z; lastDelay := 0%Z;
     txBytes := 1000000%N; rxBytes := 900000%N;
     txPackets := 1000%N; rxPackets := 900%N; lostPackets := 100%N |}.

(** A flow whose packets, sent from 1 s on, were all lost: nothing was
    received, so [timeLastRxPacket] still has its initial value 0. *)
Definition lost_flow : FlowStats :=
  {| timeFirstTxPacket := Seconds 1; timeLastRxPacket := 0%Z;
     delaySum := 0%Z; jitterSum := 0%Z; lastDelay := 0%Z;
     txBytes := 4096%N; rxBytes := 0%N;
     txPackets := 1%N; rxPackets := 0%N; lostPackets := 1%N |}.

Definition scenario_tuple : FiveTuple :=
  {| sourceAddress := 167837955%N; destinationAddress := 167837953%N |}.

Example scenario_flow_line :
  flowCsv_line 1%N scenario_tuple scenario_flow
  = "1,10.1.1.3,10.1.1.1,1000,900,100,2,0,0,1000000,900000,8,900"%string.
Proof. vm_compute. reflexivity. Qed.

Example lost_flow_line :
  flowCsv_line 2%N scenario_tuple lost_flow
  = "2,10.1.1.3,10.1.1.1,1,0,1,0,0,0,4096,0,-1,0"%string.
Proof. vm_compute. reflexivity. Qed.

(** *** What the loop writes *)

Definition flowCsv_fields (id : FlowId) (t : FiveTuple) (st : FlowStats) : list string :=
  [ show_uint id; show_ipv4 (sourceAddress t); show_ipv4 (destinationAddress t);
    show_uint (txPackets st); show_uint (rxPackets st); show_uint (lostPackets st);
    show_double (GetSeconds (delaySum st)); show_double (GetSeconds (jitterSum st));
    show_double (GetSeconds (lastDelay st));
    show_uint (txBytes st); show_uint (rxBytes st);
    show_double (duration st); show_double (throughput st) ].

Lemma flowCsv_line_fields (id : FlowId) (t : FiveTuple) (st : FlowStats) :
  fields (flowCsv_line id t st) = flowCsv_fields id t st.
Proof.
  change (flowCsv_line id t st) with (join (flowCsv_fields id t st)).
  apply fields_join; [discriminate|].
  unfold flowCsv_fields. cbn [forallb].
  rewrite !comma_free_show_uint, !comma_free_show_ipv4, !comma_free_show_double.
  reflexivity.
Qed.

Lemma flowCsv_loop (classifier : FlowId -> FiveTuple)
    (stats : list (FlowId * FlowStats)) (out : Streams) :
  flowCsv (fold_left (loop_body classifier) stats out) =
    flowCsv out ++
    map (fun flow => flowCsv_line (fst flow) (classifier (fst flow)) (snd flow)) stats.
Proof.
  revert out. induction stats as [|flow stats IH]; intros out; simpl.
  - now rewrite app_nil_r.
  - rewrite IH. simpl. now rewrite <- app_assoc.
Qed.

Lemma cout_loop (classifier : FlowId -> FiveTuple)
    (stats : list (FlowId * FlowStats)) (out : Streams) :
  cout (fold_left (loop_body classifier) stats out) =
    cout out ++
    concat (map (fun flow => cout_lines (fst flow) (classifier (fst flow)) (snd flow))
                stats).
Proof.
  revert out. induction stats as [|flow stats IH]; intros out; simpl.
  - now rewrite app_nil_r.
  - rewrite IH. simpl. now rewrite <- app_assoc.
Qed.

Lemma GetSeconds_sub (a b : Time) :
  GetSeconds (a - b) == GetSeconds a - GetSeconds b.
Proof. unfold GetSeconds, Qeq, Qminus, Qplus, Qopp. simpl. lia. Qed.

Lemma GetSeconds_neg (a : Time) : GetSeconds a < 0 <-> (a < 0)%Z.
Proof. unfold GetSeconds, Qlt. simpl. lia. Qed.

(** *** Properties of the flow statistics *)

(** C4, as the code has it.  The loop writes one line per flow of the
    snapshot, in order; the Duration column of a flow's line is
    [lastRxTime - firstTxTime] as it is, with no clamping: it is negative
    exactly when [lastRxTime < firstTxTime], and for a flow that received
    nothing ([lastRxTime = 0]) it is [- firstTxTime]. *)
Theorem C4_duration_column (classifier : FlowId -> FiveTuple)
    (stats : list (FlowId * FlowStats)) (id : FlowId) (t : FiveTuple) (st : FlowStats) :
  flowCsv (flow_stats_loop classifier stats) =
    flowCsv_header ::
    map (fun flow => flowCsv_line (fst flow) (classifier (fst flow)) (snd flow)) stats /\
  fields flowCsv_header !! 11%nat = Some "Duration"%string /\
  fields (flowCsv_line id t st) !! 11%nat = Some (show_double (duration st)) /\
  duration st == GetSeconds (timeLastRxPacket st) - GetSeconds (timeFirstTxPacket st) /\
  (duration st < 0 <-> (timeLastRxPacket st < timeFirstTxPacket st)%Z) /\
  (timeLastRxPacket st = 0%Z -> duration st == - GetSeconds (timeFirstTxPacket st)).
Proof.
  split; [unfold flow_stats_loop; rewrite flowCsv_loop; reflexivity|].
  split; [vm_compute; reflexivity|].
  split; [rewrite flowCsv_line_fields; reflexivity|].
  split; [apply GetSeconds_sub|]. split.
  - unfold duration. rewrite GetSeconds_neg. lia.
  - intros H0. unfold duration. rewrite H0. unfold GetSeconds, Qeq. simpl. lia.
Qed.

Lemma C4_duration_column_witness :
  duration lost_flow == - GetSeconds (timeFirstTxPacket lost_flow).
Proof.
  apply (C4_duration_column (fun _ => scenario_tuple) [] 2%N scenario_tuple lost_flow).
  reflexivity.
Defined.

(** C4, counterexample to the specification's wording (a duration that is
    never negative): a flow that received nothing, first sent at 1 s,
    has duration -1 s, and "-1" is what its Duration column holds. *)
Lemma C4_counterexample :
  rxPackets lost_flow = 0%N /\ rxBytes lost_flow = 0%N /\
  duration lost_flow < 0 /\ ~ duration lost_flow == 0 /\
  fields (flowCsv_line 2%N scenario_tuple lost_flow) !! 11%nat = Some "-1"%string.
Proof.
  split; [reflexivity|]. split; [reflexivity|]. split; [reflexivity|].
  split; [discriminate|]. vm_compute. reflexivity.
Qed.

Lemma cout_block_lookup (classifier : FlowId -> FiveTuple)
    (stats : list (FlowId * FlowStats)) (k i : nat) (id : FlowId) (st : FlowStats) :
  stats !! k = Some (id, st) -> (i < 6)%nat ->
  concat (map (fun flow => cout_lines (fst flow) (classifier (fst flow)) (snd flow))
              stats) !! (6 * k + i)%nat =
    cout_lines id (classifier id) st !! i.
Proof.
  revert k. induction stats as [|flow stats IH]; intros k Hk Hi; [discriminate|].
  cbn [map concat]. destruct k as [|k].
  - cbn in Hk. injection Hk as ->. cbn [fst snd].
    rewrite Nat.mul_0_r, Nat.add_0_l. apply lookup_app_l. cbn [cout_lines length]. lia.
  - cbn in Hk. rewrite lookup_app_r by (cbn [cout_lines length]; lia).
    replace (6 * S k + i - length (cout_lines (fst flow) (classifier (fst flow)) (snd flow)))%nat
      with (6 * k + i)%nat by (cbn [cout_lines length]; lia).
    now apply IH.
Qed.

(** C5. For every flow the throughput is 0 when the duration is not
    positive and [rxBytes * 8 / 1000 / duration] when it is; the mean delay
    is 0 when no packet was received and [delaySum / rxPackets] otherwise.
    These are the values the loop produces for the flows of the snapshot:
    it is total, and for the [k]-th flow it writes line [k + 1] of
    flow_stats.csv, whose last column is that throughput, and console lines
    [6 k] to [6 k + 5], of which the fifth prints that throughput and the
    sixth that mean delay.  For a flow without received traffic both
    values, as computed and as the loop prints them, are zero. *)
Theorem C5_derived_fields (classifier : FlowId -> FiveTuple)
    (stats : list (FlowId * FlowStats)) :
  let out := flow_stats_loop classifier stats in
  (forall st : FlowStats,
     (duration st <= 0 -> throughput st = 0) /\
     (0 < duration st ->
        throughput st == to_double (rxBytes st) * 8 / 1000 / duration st) /\
     (rxPackets st = 0%N -> mean_delay st = 0) /\
     ((0 < rxPackets st)%N ->
        mean_delay st = GetSeconds (delaySum st) / to_double (rxPackets st))) /\
  length (flowCsv out) = S (length stats) /\
  length (cout out) = (6 * length stats)%nat /\
  (forall (k : nat) (id : FlowId) (st : FlowStats),
     stats !! k = Some (id, st) ->
     flowCsv out !! S k = Some (flowCsv_line id (classifier id) st) /\
     fields (flowCsv_line id (classifier id) st) !! 12%nat =
       Some (show_double (throughput st)) /\
     (forall i, (i < 6)%nat ->
        cout out !! (6 * k + i)%nat = cout_lines id (classifier id) st !! i) /\
     cout out !! (6 * k + 4)%nat =
       Some ("  Throughput: " +:+ show_double (throughput st) +:+ " kbps")%string /\
     cout out !! (6 * k + 5)%nat =
       Some ("  Mean Delay: " +:+ show_double (mean_delay st) +:+ " s")%string /\
     (rxPackets st = 0%N -> timeLastRxPacket st = 0%Z ->
      (0 <= timeFirstTxPacket st)%Z ->
        throughput st = 0 /\ mean_delay st = 0 /\
        (exists line, flowCsv out !! S k = Some line /\
                      fields line !! 12%nat = Some "0"%string) /\
        cout out !! (6 * k + 4)%nat = Some "  Throughput: 0 kbps"%string /\
        cout out !! (6 * k + 5)%nat = Some "  Mean Delay: 0 s"%string)).
Proof.
  intros out. subst out.
  assert (Hthr : forall st, duration st <= 0 -> throughput st = 0).
  { intros st Hd. unfold throughput.
    destruct (Qlt_le_dec 0 (duration st)) as [Hlt|_]; [|reflexivity].
    exfalso. apply (Qlt_irrefl 0). eapply Qlt_le_trans; eassumption. }
  assert (Hmd : forall st, rxPackets st = 0%N -> mean_delay st = 0).
  { intros st Hrx. unfold mean_delay. now rewrite Hrx. }
  assert (Hcsv : flowCsv (flow_stats_loop classifier stats) =
                 flowCsv_header ::
                 map (fun flow => flowCsv_line (fst flow) (classifier (fst flow)) (snd flow))
                     stats).
  { unfold flow_stats_loop. rewrite flowCsv_loop. reflexivity. }
  assert (Hcout : cout (flow_stats_loop classifier stats) =
                  concat (map (fun flow => cout_lines (fst flow) (classifier (fst flow))
                                             (snd flow)) stats)).
  { unfold flow_stats_loop. rewrite cout_loop. reflexivity. }
  rewrite Hcsv, Hcout.
  split; [|split; [|split; [|]]].
  - intros st. split; [apply Hthr|]. split; [|split; [apply Hmd|]].
    + intros Hd. unfold throughput.
      destruct (Qlt_le_dec 0 (duration st)) as [_|Hle].
      * field. intros H0. rewrite H0 in Hd. now apply Qlt_irrefl in Hd.
      * exfalso. apply (Qlt_irrefl 0). eapply Qlt_le_trans; eassumption.
    + intros Hrx. unfold mean_delay.
      destruct (0 <? rxPackets st)%N eqn:E; [reflexivity|].
      apply N.ltb_ge in E. lia.
  - cbn [length]. now rewrite length_map.
  - clear. induction stats as [|flow stats IH]; [reflexivity|].
    cbn [map concat]. rewrite length_app, IH. cbn [cout_lines length]. lia.
  - intros k id st Hk.
    assert (Hline : (flowCsv_header ::
                       map (fun flow => flowCsv_line (fst flow) (classifier (fst flow))
                                          (snd flow)) stats) !! S k =
                    Some (flowCsv_line id (classifier id) st)).
    { change ((flowCsv_header :: ?l) !! S k) with (l !! k).
      rewrite list_lookup_fmap. apply fmap_Some.
      exists (id, st). split; [exact Hk|reflexivity]. }
    assert (Hblock : forall i, (i < 6)%nat ->
              concat (map (fun flow => cout_lines (fst flow) (classifier (fst flow))
                                         (snd flow)) stats) !! (6 * k + i)%nat =
              cout_lines id (classifier id) st !! i).
    { intros i Hi. now apply cout_block_lookup. }
    split; [exact Hline|]. split; [rewrite flowCsv_line_fields; reflexivity|].
    split; [exact Hblock|].
    split; [rewrite Hblock by lia; reflexivity|].
    split; [rewrite Hblock by lia; reflexivity|].
    intros Hrx Hlast Hfirst.
    assert (Hd : duration st <= 0).
    { unfold duration. rewrite Hlast. unfold GetSeconds, Qle. simpl. lia. }
    split; [now apply Hthr|]. split; [now apply Hmd|]. split.
    + eexists. split; [exact Hline|].
      rewrite flowCsv_line_fields. unfold flowCsv_fields.
      rewrite (Hthr st Hd). reflexivity.
    + rewrite !Hblock by lia. unfold cout_lines.
      rewrite (Hthr st Hd), (Hmd st Hrx). split; reflexivity.
Qed.

Lemma C5_derived_fields_witness :
  (exists line,
     flowCsv (flow_stats_loop (fun _ => scenario_tuple)
                [(1%N, scenario_flow); (2%N, lost_flow)]) !! 2%nat = Some line /\
     fields line !! 12%nat = Some "0"%string) /\
  cout (flow_stats_loop (fun _ => scenario_tuple)
          [(1%N, scenario_flow); (2%N, lost_flow)]) !! 11%nat =
    Some "  Mean Delay: 0 s"%string /\
  throughput scenario_flow == 900.
Proof.
  pose proof (C5_derived_fields (fun _ => scenario_tuple)
                [(1%N, scenario_flow); (2%N, lost_flow)]) as (Hval & _ & _ & Hloop).
  destruct (Hloop 1%nat 2%N lost_flow eq_refl) as (_ & _ & _ & _ & _ & Hzero).
  destruct Hzero as (_ & _ & Hcol & _ & Hdelay);
    [reflexivity|reflexivity|vm_compute; discriminate|].
  split; [exact Hcol|]. split; [exact Hdelay|].
  rewrite (proj1 (proj2 (Hval scenario_flow))); reflexivity.
Defined.

End FlowStatsAggregator.

(** ** Reading handover_events.csv back *)

Module EventLog.
Import Text Show Ns3 Tracker.

(** The repository has no reader for its CSV files; this one follows the
    format the writer lays down. *)

(** Modelled from the spec: re-parsing an unsigned decimal field. *)
Definition parse_uint (s : string) : option N :=
  option_map N.of_uint (NilZero.uint_of_string s).

Fixpoint index_of (c : ascii) (l : list ascii) (i : N) : option N :=
  match l with
  | [] => None
  | c' :: l' => if Ascii.eqb c c' then Some i else index_of c l' (N.succ i)
  end.

(** The value of a lowercase hexadecimal digit. *)
Definition unhex (c : ascii) : option N := index_of c hex_digits 0%N.

Definition parse_octet (hi lo : ascii) : option Byte.byte :=
  match unhex hi, unhex lo with
  | Some h, Some l => Byte.of_N (16 * h + l)
  | _, _ => None
  end.

(** Modelled from the spec: re-parsing an access-point field, seventeen
    characters [hh:hh:hh:hh:hh:hh]. *)
Definition parse_mac (s : string) : option Mac48Address :=
  match list_ascii_of_string s with
  | [a0; a1; c1; b0; b1; c2; d0; d1; c3; e0; e1; c4; f0; f1; c5; g0; g1] =>
      if forallb (Ascii.eqb ":") [c1; c2; c3; c4; c5] then
        match parse_octet a0 a1, parse_octet b0 b1, parse_octet d0 d1,
              parse_octet e0 e1, parse_octet f0 f1, parse_octet g0 g1 with
        | Some o0, Some o1, Some o2, Some o3, Some o4, Some o5 =>
            Some (MkMac o0 o1 o2 o3 o4 o5)
        | _, _, _, _, _, _ => None
        end
      else None
  | _ => None
  end.

(** Modelled from the spec: re-parsing one data line.  The time is kept
    as the text of its field. *)
Definition parse_line (line : string) : option (LogRow string) :=
  match fields line with
  | [t; ty; s; a] =>
      match parse_uint s, parse_mac a with
      | Some s', Some a' =>
          if String.eqb ty "ASSOC" then Some (ASSOC t s' a')
          else if String.eqb ty "DEASSOC" then Some (DEASSOC t s' a')
          else None
      | _, _ => None
      end
  | [t; ty; s; a; b] =>
      match parse_uint s, parse_mac a, parse_mac b with
      | Some s', Some a', Some b' =>
          if String.eqb ty "HANDOVER" then Some (HANDOVER t s' a' b') else None
      | _, _, _ => None
      end
  | _ => None
  end.

Fixpoint parse_lines (lines : list string) : option (list (LogRow string)) :=
  match lines with
  | [] => Some []
  | line :: lines' =>
      match parse_line line, parse_lines lines' with
      | Some r, Some rs => Some (r :: rs)
      | _, _ => None
      end
  end.

(** Modelled from the spec: re-parsing the file, header first. *)
Definition parse_file (lines : list string) : option (list (LogRow string)) :=
  match lines with
  | h :: rows => if String.eqb h header then parse_lines rows else None
  | [] => None
  end.

(** A row as the file shows it: its time replaced by the text written. *)
Definition as_written (r : Row) : LogRow string :=
  match r with
  | HANDOVER t s a b => HANDOVER (show_double t) s a b
  | ASSOC t s a => ASSOC (show_double t) s a
  | DEASSOC t s a => DEASSOC (show_double t) s a
  end.

Lemma to_uint_nonnil (n : N) : N.to_uint n <> Decimal.Nil.
Proof.
  intros H. assert (Hn : n = 0%N).
  { rewrite <- (DecimalN.Unsigned.of_to n), H. reflexivity. }
  subst n. discriminate H.
Qed.

Lemma parse_show_uint (n : N) : parse_uint (show_uint n) = Some n.
Proof.
  unfold parse_uint, show_uint.
  rewrite NilZero.usu by apply to_uint_nonnil.
  simpl. now rewrite DecimalN.Unsigned.of_to.
Qed.

Lemma parse_show_octet (b : Byte.byte) :
  parse_octet (hex_digit (Byte.to_N b / 16)) (hex_digit (Byte.to_N b mod 16)) = Some b.
Proof. destruct b; reflexivity. Qed.

Lemma show_mac_chars (a : Mac48Address) :
  list_ascii_of_string (show_mac a) =
    let hi b := hex_digit (Byte.to_N b / 16) in
    let lo b := hex_digit (Byte.to_N b mod 16) in
    [ hi (octet0 a); lo (octet0 a); ":"; hi (octet1 a); lo (octet1 a); ":";
      hi (octet2 a); lo (octet2 a); ":"; hi (octet3 a); lo (octet3 a); ":";
      hi (octet4 a); lo (octet4 a); ":"; hi (octet5 a); lo (octet5 a) ]%char.
Proof. reflexivity. Qed.

Lemma parse_show_mac (a : Mac48Address) : parse_mac (show_mac a) = Some a.
Proof.
  unfold parse_mac. rewrite show_mac_chars. cbv beta iota zeta.
  change (forallb (Ascii.eqb ":") [":"; ":"; ":"; ":"; ":"]%char) with true.
  cbv iota. rewrite !parse_show_octet. now destruct a.
Qed.

Lemma parse_render (r : Row) : parse_line (render r) = Some (as_written r).
Proof.
  unfold parse_line.
  destruct r as [t s a b|t s a|t s a]; cbn [render as_written].
  - rewrite handover_line_fields. now rewrite parse_show_uint, !parse_show_mac.
  - rewrite assoc_line_fields. now rewrite parse_show_uint, !parse_show_mac.
  - rewrite deassoc_line_fields. now rewrite parse_show_uint, !parse_show_mac.
Qed.

Lemma parse_lines_render (rows : list Row) :
  parse_lines (map render rows) = Some (map as_written rows).
Proof.
  induction rows as [|r rows IH]; [reflexivity|].
  cbn [map parse_lines]. now rewrite parse_render, IH.
Qed.

(** Two rows that say the same: equal up to the representation of the
    rational time. *)
Definition row_equiv (r1 r2 : Row) : Prop :=
  match r1, r2 with
  | HANDOVER t1 s1 a1 b1, HANDOVER t2 s2 a2 b2 =>
      (t1 == t2)%Q /\ s1 = s2 /\ a1 = a2 /\ b1 = b2
  | ASSOC t1 s1 a1, ASSOC t2 s2 a2 => (t1 == t2)%Q /\ s1 = s2 /\ a1 = a2
  | DEASSOC t1 s1 a1, DEASSOC t2 s2 a2 => (t1 == t2)%Q /\ s1 = s2 /\ a1 = a2
  | _, _ => False
  end.

(** Two association times a microsecond apart. *)
Definition time_a : Q := 5000123 # 1000000.
Definition time_b : Q := 5000124 # 1000000.

Lemma same_file_different_rows :
  handoverFile (run [Associate time_a 0%N ap1] initial_globals) =
  handoverFile (run [Associate time_b 0%N ap1] initial_globals).
Proof. vm_compute. reflexivity. Qed.

Lemma no_reader_recovers_rows :
  ~ exists parse : list string -> list Row,
      forall evs, Forall2 row_equiv (parse (handoverFile (run evs initial_globals)))
                          (logged_rows evs initial_globals).
Proof.
  intros [parse Hparse].
  pose proof (Hparse [Associate time_a 0%N ap1]) as Ha.
  pose proof (Hparse [Associate time_b 0%N ap1]) as Hb.
  rewrite same_file_different_rows in Ha.
  change (logged_rows [Associate time_a 0%N ap1] initial_globals)
    with [ASSOC time_a 0%N ap1] in Ha.
  change (logged_rows [Associate time_b 0%N ap1] initial_globals)
    with [ASSOC time_b 0%N ap1] in Hb.
  destruct (parse _) as [|r l]; [inversion Ha|].
  inversion Ha as [|? ? ? ? Hra _]. inversion Hb as [|? ? ? ? Hrb _]. subst.
  destruct r as [t s a b|t s a|t s a]; try contradiction.
  destruct Hra as [Hta _], Hrb as [Htb _].
  rewrite Hta in Htb. discriminate Htb.
Qed.

(** *** The round trip *)

(** C9, as the code has it.  Reading back the file written for any
    history yields the logged rows in order, with event type, station and
    access points as they were, and each time as the text that was written
    for it, that is, rounded to six significant digits. *)
Theorem C9_round_trip_as_written (evs : list Event) :
  parse_file (handoverFile (run evs initial_globals)) =
    Some (map as_written (logged_rows evs initial_globals)).
Proof.
  rewrite handoverFile_run. cbn [initial_globals handoverFile app parse_file].
  change (String.eqb header header) with true. cbv iota.
  apply parse_lines_render.
Qed.

(** C9, counterexample to the specification's wording (an exact round
    trip): two histories whose association times differ in
    the seventh significant digit log different rows and yet write the
    same file, so no reader can return the rows that generated it. *)
Lemma C9_counterexample :
  ~ (time_a == time_b)%Q /\
  logged_rows [Associate time_a 0%N ap1] initial_globals = [ASSOC time_a 0%N ap1] /\
  logged_rows [Associate time_b 0%N ap1] initial_globals = [ASSOC time_b 0%N ap1] /\
  handoverFile (run [Associate time_a 0%N ap1] initial_globals) =
    [header; "5.00012,ASSOC,0,00:00:00:00:00:01"]%string /\
  handoverFile (run [Associate time_b 0%N ap1] initial_globals) =
    [header; "5.00012,ASSOC,0,00:00:00:00:00:01"]%string /\
  ~ exists parse : list string -> list Row,
      forall evs, Forall2 row_equiv (parse (handoverFile (run evs initial_globals)))
                          (logged_rows evs initial_globals).
Proof.
  split; [discriminate|]. split; [reflexivity|]. split; [reflexivity|].
  split; [vm_compute; reflexivity|]. split; [vm_compute; reflexivity|].
  exact no_reader_recovers_rows.
Qed.

End EventLog.

(** ** The station number in the callback's context path *)

Module Context.
Import Text Show Ns3.

(** The two exceptions the extraction can end in; neither is caught, so
    either one ends the run. *)
Inductive exception : Type := out_of_range | invalid_argument.

Inductive result (A : Type) : Type :=
  | Ok (a : A)
  | Throw (e : exception).

Arguments Ok {A} a.
Arguments Throw {A} e.

(** [std::string::size_type] is taken to be 64 bits wide. *)
Definition npos : Z := 2 ^ 64 - 1.

Definition size_type (z : Z) : Z := z mod 2 ^ 64.

Definition size (s : string) : Z := Z.of_nat (String.length s).

Fixpoint starts_with (pat s : string) : bool :=
  match pat, s with
  | EmptyString, _ => true
  | String _ _, EmptyString => false
  | String a pat', String b s' => Ascii.eqb a b && starts_with pat' s'
  end.

(** First index, counted from [i] at the head of [s], where [pat] occurs. *)
Fixpoint find_at (pat s : string) (i : Z) : Z :=
  if starts_with pat s then i
  else match s with
       | EmptyString => npos
       | String _ s' => find_at pat s' (i + 1)
       end.

(** [s.find(pat, pos)] *)
Definition find (s pat : string) (pos : Z) : Z :=
  if size s <? pos then npos
  else find_at pat (string_drop (Z.to_nat pos) s) pos.

(** [s.substr(pos, n)]: throws when [pos] is beyond the end, and stops at
    the end when [n] reaches further. *)
Definition substr (s : string) (pos n : Z) : result string :=
  if size s <? pos then Throw out_of_range
  else Ok (string_take (Z.to_nat (Z.min n (size s - pos)))
                       (string_drop (Z.to_nat pos) s)).

Definition isspace (c : ascii) : bool :=
  let n := N_of_ascii c in ((n =? 32) || ((9 <=? n) && (n <=? 13)))%N.

Definition isdigit (c : ascii) : bool :=
  let n := N_of_ascii c in ((48 <=? n) && (n <=? 57))%N.

Fixpoint skip_spaces (s : string) : string :=
  match s with
  | String c s' => if isspace c then skip_spaces s' else s
  | EmptyString => s
  end.

(** The value of the decimal digits at the head of [s], after [acc]. *)
Fixpoint digits_value (s : string) (acc : Z) : Z :=
  match s with
  | String c s' =>
      if isdigit c then digits_value s' (10 * acc + (Z.of_N (N_of_ascii c) - 48))
      else acc
  | EmptyString => acc
  end.

Definition starts_with_digit (s : string) : bool :=
  match s with
  | String c _ => isdigit c
  | EmptyString => false
  end.

Definition INT_MAX : Z := 2 ^ 31 - 1.
Definition INT_MIN : Z := - 2 ^ 31.

(** [std::stoi(str)]: blanks, an optional sign, then decimal digits; text
    after the digits is ignored.  It throws [std::invalid_argument] when no
    digit is found and [std::out_of_range] when the number is not an
    [int]. *)
Definition stoi (str : string) : result Z :=
  let s := skip_spaces str in
  let '(negative, body) :=
    match s with
    | String c rest =>
        if Ascii.eqb c "-" then (true, rest)
        else if Ascii.eqb c "+" then (false, rest)
        else (false, s)
    | EmptyString => (false, s)
    end in
  if starts_with_digit body then
    let magnitude := digits_value body 0 in
    let value := if negative then - magnitude else magnitude in
    if (INT_MIN <=? value) && (value <=? INT_MAX) then Ok value
    else Throw out_of_range
  else Throw invalid_argument.

(** The first four statements of both callbacks:
    [start = context.find("/NodeList/");]
    [end = context.find("/Device", start);]
    [nodeIdStr = context.substr(start + 10, end - (start + 10));]
    [uint32_t nodeId = std::stoi(nodeIdStr);] *)
Definition node_id_of_context (context : string) : result N :=
  let start := find context "/NodeList/" 0 in
  let end_ := find context "/Device" start in
  match substr context (size_type (start + 10))
                       (size_type (end_ - size_type (start + 10))) with
  | Throw e => Throw e
  | Ok nodeIdStr =>
      match stoi nodeIdStr with
      | Throw e => Throw e
      | Ok value => Ok (Z.to_N (value mod 2 ^ 32))
      end
  end.

(** The callbacks as the engine calls them, with the context path. *)
Definition AssociationCallback (currentTime : Q) (context : string)
    (apAddr : Mac48Address) (g : Tracker.Globals) : result Tracker.Globals :=
  match node_id_of_context context with
  | Throw e => Throw e
  | Ok nodeId => Ok (Tracker.AssociationCallback currentTime nodeId apAddr g)
  end.

Definition DisassociationCallback (currentTime : Q) (context : string)
    (apAddr : Mac48Address) (g : Tracker.Globals) : result Tracker.Globals :=
  match node_id_of_context context with
  | Throw e => Throw e
  | Ok nodeId => Ok (Tracker.DisassociationCallback currentTime nodeId apAddr g)
  end.

(** The path the engine passes for the association trace of node [n]. *)
Definition assoc_context (n : N) : string :=
  "/NodeList/" +:+ show_uint n +:+
  "/DeviceList/0/$ns3::WifiNetDevice/Mac/$ns3::StaWifiMac/Assoc".

Example node_id_7 : node_id_of_context (assoc_context 7) = Ok 7%N.
Proof. vm_compute. reflexivity. Qed.
Example node_id_12 : node_id_of_context (assoc_context 12) = Ok 12%N.
Proof. vm_compute. reflexivity. Qed.
Example node_id_empty : node_id_of_context "" = Throw out_of_range.
Proof. vm_compute. reflexivity. Qed.
Example node_id_no_number :
  node_id_of_context "/NodeList//DeviceList/0" = Throw invalid_argument.
Proof. vm_compute. reflexivity. Qed.
Example node_id_negative :
  node_id_of_context "/NodeList/-1/DeviceList/0" = Ok 4294967295%N.
Proof. vm_compute. reflexivity. Qed.
Example node_id_no_marker : node_id_of_context "abcdefghi42" = Ok 42%N.
Proof. vm_compute. reflexivity. Qed.
Example node_id_too_large :
  node_id_of_context (assoc_context 2147483648) = Throw out_of_range.
Proof. vm_compute. reflexivity. Qed.
Example node_id_no_device : node_id_of_context "/NodeList/31" = Ok 31%N.
Proof. vm_compute. reflexivity. Qed.

(** *** Strings *)

Fixpoint char_free (c : ascii) (s : string) : bool :=
  match s with
  | EmptyString => true
  | String a s' => negb (Ascii.eqb a c) && char_free c s'
  end.

Fixpoint all_digits (s : string) : bool :=
  match s with
  | EmptyString => true
  | String a s' => isdigit a && all_digits s'
  end.

Lemma size_nonneg (s : string) : 0 <= size s.
Proof. unfold size. lia. Qed.

Lemma size_String (c : ascii) (s : string) : size (String c s) = 1 + size s.
Proof. unfold size. cbn [String.length]. lia. Qed.

Lemma append_String (c : ascii) (a b : string) :
  String c a +:+ b = String c (a +:+ b).
Proof. reflexivity. Qed.

Lemma append_empty (b : string) : "" +:+ b = b.
Proof. reflexivity. Qed.

Lemma size_app (a b : string) : size (a +:+ b) = size a + size b.
Proof.
  induction a as [|c a IH]; [reflexivity|].
  rewrite append_String, !size_String, IH. lia.
Qed.

Lemma string_take_app (a b : string) :
  string_take (String.length a) (a +:+ b) = a.
Proof.
  induction a as [|c a IH]; [now destruct b|].
  rewrite append_String. cbn. now rewrite IH.
Qed.

Lemma string_take_all (s : string) : string_take (String.length s) s = s.
Proof. induction s as [|c s IH]; cbn; [reflexivity|now rewrite IH]. Qed.

Lemma string_drop_length (n : nat) (s : string) :
  (n <= String.length s)%nat ->
  String.length (string_drop n s) = (String.length s - n)%nat.
Proof.
  revert s. induction n as [|n IH]; intros s Hn; [cbn; lia|].
  destruct s as [|c s]; cbn in *; [lia|]. apply IH. lia.
Qed.

Lemma starts_with_before_slash (p mid t : string) :
  char_free "/" p = true ->
  starts_with p (mid +:+ String "/" t) = starts_with p mid.
Proof.
  revert mid. induction p as [|a p IH]; intros mid Hp; [now destruct mid|].
  cbn [char_free] in Hp. apply andb_true_iff in Hp as [Ha Hp].
  apply negb_true_iff in Ha.
  destruct mid as [|b mid].
  - rewrite append_empty. cbn [starts_with]. now rewrite Ha.
  - rewrite append_String. cbn [starts_with]. now rewrite IH.
Qed.

Lemma find_at_after (pat_tail mid t : string) (c : ascii) (i : Z) :
  char_free c mid = true ->
  find_at (String c pat_tail) (mid +:+ String c pat_tail +:+ t) i = i + size mid.
Proof.
  revert i. induction mid as [|a mid IH]; intros i Hm.
  - rewrite append_empty, append_String. cbn [find_at starts_with].
    rewrite Ascii.eqb_refl. cbn [andb].
    assert (Hsw : forall p u, starts_with p (p +:+ u) = true).
    { induction p as [|b p IHp]; intros u; [reflexivity|].
      rewrite append_String. cbn [starts_with]. now rewrite Ascii.eqb_refl, IHp. }
    rewrite Hsw. unfold size. cbn. lia.
  - cbn [char_free] in Hm. apply andb_true_iff in Hm as [Ha Hm].
    apply negb_true_iff in Ha.
    rewrite append_String. cbn [find_at starts_with].
    rewrite Ascii.eqb_sym, Ha. cbn [andb]. rewrite IH by assumption.
    rewrite size_String. lia.
Qed.

(** *** Decimal numbers *)

Lemma digits_value_acc (d : Decimal.uint) (p : positive) :
  digits_value (NilEmpty.string_of_uint d) (Zpos p) = Zpos (Pos.of_uint_acc d p).
Proof.
  revert p. induction d; intros p; cbn [NilEmpty.string_of_uint Pos.of_uint_acc];
    [reflexivity|..];
    cbn [digits_value];
    match goal with
    | |- context [isdigit ?c] => change (isdigit c) with true; cbv iota
    end;
    match goal with
    | |- digits_value _ ?a = Zpos (Pos.of_uint_acc _ ?q) =>
        replace a with (Zpos q) by (cbn; lia)
    end; apply IHd.
Qed.

Lemma digits_value_of_uint (d : Decimal.uint) :
  digits_value (NilEmpty.string_of_uint d) 0 = Z.of_N (Pos.of_uint d).
Proof.
  induction d; cbn [NilEmpty.string_of_uint Pos.of_uint];
    [reflexivity|..];
    cbn [digits_value];
    match goal with
    | |- context [isdigit ?c] => change (isdigit c) with true; cbv iota
    end;
    [exact IHd|..]; cbn [Z.of_N]; rewrite <- digits_value_acc; reflexivity.
Qed.

Lemma show_uint_NilEmpty (n : N) :
  show_uint n = NilEmpty.string_of_uint (N.to_uint n).
Proof.
  unfold show_uint, NilZero.string_of_uint.
  pose proof (EventLog.to_uint_nonnil n). now destruct (N.to_uint n).
Qed.

Lemma digits_value_show_uint (n : N) : digits_value (show_uint n) 0 = Z.of_N n.
Proof.
  rewrite show_uint_NilEmpty, digits_value_of_uint.
  change (Pos.of_uint (N.to_uint n)) with (N.of_uint (N.to_uint n)).
  now rewrite DecimalN.Unsigned.of_to.
Qed.

Lemma all_digits_string_of_uint (d : Decimal.uint) :
  all_digits (NilEmpty.string_of_uint d) = true.
Proof. induction d; cbn; auto. Qed.

Lemma all_digits_show_uint (n : N) : all_digits (show_uint n) = true.
Proof. rewrite show_uint_NilEmpty. apply all_digits_string_of_uint. Qed.

Lemma show_uint_head (n : N) :
  exists c s, show_uint n = String c s /\ isdigit c = true.
Proof.
  pose proof (all_digits_show_uint n) as Hd.
  rewrite show_uint_NilEmpty in *. pose proof (EventLog.to_uint_nonnil n) as Hn.
  destruct (N.to_uint n); [congruence|..]; cbn in *; eauto.
Qed.

Lemma isdigit_not (c x : ascii) : isdigit c = true -> isdigit x = false -> Ascii.eqb c x = false.
Proof.
  intros Hc Hx. destruct (Ascii.eqb c x) eqn:E; [|reflexivity].
  apply Ascii.eqb_eq in E. congruence.
Qed.

Lemma all_digits_char_free (s : string) (x : ascii) :
  isdigit x = false -> all_digits s = true -> char_free x s = true.
Proof.
  intros Hx. induction s as [|c s IH]; cbn; [reflexivity|].
  intros H. apply andb_true_iff in H as [Hc Hs].
  now rewrite (isdigit_not _ _ Hc Hx), IH.
Qed.

(** What [std::stoi] makes of a number printed in decimal. *)
Lemma stoi_show_uint (n : N) :
  stoi (show_uint n) =
    if Z.of_N n <=? INT_MAX then Ok (Z.of_N n) else Throw out_of_range.
Proof.
  destruct (show_uint_head n) as (c & s & Hs & Hc).
  pose proof (digits_value_show_uint n) as Hv.
  unfold stoi. rewrite Hs in *. cbn [skip_spaces].
  assert (Hsp : isspace c = false).
  { revert Hc. unfold isdigit, isspace. cbv zeta. intros Hc.
    apply andb_true_iff in Hc as [Hlo _]. apply N.leb_le in Hlo.
    assert ((N_of_ascii c =? 32)%N = false) as -> by (apply N.eqb_neq; lia).
    assert ((N_of_ascii c <=? 13)%N = false) as -> by (apply N.leb_gt; lia).
    now rewrite andb_false_r. }
  rewrite Hsp.
  rewrite (isdigit_not c "-" Hc eq_refl), (isdigit_not c "+" Hc eq_refl).
  cbn [starts_with_digit]. rewrite Hc, Hv.
  assert ((INT_MIN <=? Z.of_N n) = true) as ->
    by (apply Z.leb_le; unfold INT_MIN; lia).
  reflexivity.
Qed.

(** *** Where the markers are found *)

Lemma starts_with_self (p u : string) : starts_with p (p +:+ u) = true.
Proof.
  induction p as [|b p IH]; [reflexivity|].
  rewrite append_String. cbn [starts_with]. now rewrite Ascii.eqb_refl, IH.
Qed.

Lemma starts_with_cons (a : ascii) (p : string) (b : ascii) (s : string) :
  starts_with (String a p) (String b s) = Ascii.eqb a b && starts_with p s.
Proof. reflexivity. Qed.

Lemma find_at_here (pat s : string) (i : Z) :
  starts_with pat s = true -> find_at pat s i = i.
Proof. intros H. destruct s; cbn [find_at]; now rewrite H. Qed.

Lemma find_at_next (pat : string) (c : ascii) (s : string) (i : Z) :
  starts_with pat (String c s) = false ->
  find_at pat (String c s) i = find_at pat s (i + 1).
Proof. intros H. cbn [find_at]. now rewrite H. Qed.

Lemma find_from_0 (s pat : string) : find s pat 0 = find_at pat s 0.
Proof.
  unfold find. pose proof (size_nonneg s).
  assert ((size s <? 0) = false) as -> by (apply Z.ltb_ge; lia). reflexivity.
Qed.

Lemma find_NodeList (t : string) : find ("/NodeList/" +:+ t) "/NodeList/" 0 = 0.
Proof. rewrite find_from_0. apply find_at_here, starts_with_self. Qed.

Lemma find_Device (mid rest : string) :
  char_free "/" mid = true -> starts_with "Device" mid = false ->
  find ("/NodeList/" +:+ mid +:+ "/Device" +:+ rest) "/Device" 0 = 10 + size mid.
Proof.
  intros Hfree Hhead. rewrite find_from_0.
  set (tail := ("/Device" +:+ rest)%string).
  rewrite !append_String, append_empty.
  do 9 (rewrite find_at_next by reflexivity).
  rewrite find_at_next.
  - subst tail. now apply (find_at_after "Device" mid rest "/").
  - subst tail. rewrite (starts_with_cons "/" "Device"), Ascii.eqb_refl.
    cbn [andb]. rewrite (append_String "/" "Device" rest).
    now rewrite (starts_with_before_slash "Device" mid) by reflexivity.
Qed.

Lemma substr_segment (mid t : string) :
  substr ("/NodeList/" +:+ mid +:+ t) 10 (size mid) = Ok mid.
Proof.
  unfold substr. rewrite !size_app. pose proof (size_nonneg mid). pose proof (size_nonneg t).
  change (size "/NodeList/") with 10.
  assert ((10 + (size mid + size t) <? 10) = false) as -> by (apply Z.ltb_ge; lia).
  replace (Z.min (size mid) (10 + (size mid + size t) - 10)) with (size mid) by lia.
  unfold size at 1. rewrite Nat2Z.id.
  change (string_drop (Z.to_nat 10) ("/NodeList/" +:+ mid +:+ t)) with (mid +:+ t).
  now rewrite string_take_app.
Qed.

Lemma uint32_of_small (n : N) :
  Z.of_N n <= INT_MAX -> Z.to_N (Z.of_N n mod 2 ^ 32) = n.
Proof. unfold INT_MAX. intros H. rewrite Z.mod_small by lia. apply N2Z.id. Qed.

(** *** Properties of the extraction *)

Lemma nodeIdStr_between_markers (mid rest : string) :
  char_free "/" mid = true -> starts_with "Device" mid = false ->
  size mid < 2 ^ 64 ->
  let context := ("/NodeList/" +:+ mid +:+ "/Device" +:+ rest)%string in
  let start := find context "/NodeList/" 0 in
  let end_ := find context "/Device" start in
  substr context (size_type (start + 10))
                 (size_type (end_ - size_type (start + 10))) = Ok mid.
Proof.
  intros Hfree Hhead Hsize context start end_. subst end_ start context.
  rewrite find_NodeList, find_Device by assumption.
  pose proof (size_nonneg mid).
  change (size_type (0 + 10)) with 10.
  replace (size_type (10 + size mid - 10)) with (size mid)
    by (unfold size_type; rewrite Z.mod_small; lia).
  apply substr_segment.
Qed.

Lemma show_uint_segment (n : N) :
  char_free "/" (show_uint n) = true /\ starts_with "Device" (show_uint n) = false.
Proof.
  split.
  - apply all_digits_char_free; [reflexivity|apply all_digits_show_uint].
  - destruct (show_uint_head n) as (c & u & -> & Hc).
    rewrite starts_with_cons, Ascii.eqb_sym, (isdigit_not c "D" Hc eq_refl).
    reflexivity.
Qed.

Lemma segment_size (mid rest : string) :
  size ("/NodeList/" +:+ mid +:+ "/Device" +:+ rest) <= npos -> size mid < 2 ^ 64.
Proof.
  rewrite !size_app. pose proof (size_nonneg rest).
  change (size "/NodeList/") with 10. change (size "/Device") with 7.
  unfold npos. lia.
Qed.

(** X1. The station number is read from the text between the first
    "/NodeList/" and the "/Device" that follows; nothing after it
    matters.  It is what [std::stoi] makes of that text, converted to
    [uint32_t]. *)
Theorem node_id_between_markers (mid rest : string) :
  char_free "/" mid = true -> starts_with "Device" mid = false ->
  size mid < 2 ^ 64 ->
  node_id_of_context ("/NodeList/" +:+ mid +:+ "/Device" +:+ rest) =
    match stoi mid with
    | Throw e => Throw e
    | Ok value => Ok (Z.to_N (value mod 2 ^ 32))
    end.
Proof.
  intros Hfree Hhead Hsize. unfold node_id_of_context.
  rewrite (nodeIdStr_between_markers mid rest Hfree Hhead Hsize).
  reflexivity.
Qed.

Lemma node_id_between_markers_witness :
  node_id_of_context "/NodeList/ +42/DeviceList/0" = Ok 42%N.
Proof.
  apply (node_id_between_markers " +42" "List/0"); [reflexivity|reflexivity|].
  vm_compute. reflexivity.
Defined.

(** X2. For a station number that fits an [int], the path the engine builds
    gives the number back, and the callbacks act on that station. *)
Theorem node_id_round_trip (n : N) (rest : string) (t : Q)
    (ap : Mac48Address) (g : Tracker.Globals) :
  let context := ("/NodeList/" +:+ show_uint n +:+ "/Device" +:+ rest)%string in
  Z.of_N n <= INT_MAX -> size context <= npos ->
  node_id_of_context context = Ok n /\
  AssociationCallback t context ap g = Ok (Tracker.AssociationCallback t n ap g) /\
  DisassociationCallback t context ap g = Ok (Tracker.DisassociationCallback t n ap g).
Proof.
  intros context Hn Hsize.
  assert (Hid : node_id_of_context context = Ok n).
  { subst context. destruct (show_uint_segment n) as [Hfree Hhead].
    unfold node_id_of_context.
    rewrite (nodeIdStr_between_markers _ rest Hfree Hhead (segment_size _ _ Hsize)).
    rewrite stoi_show_uint.
    assert ((Z.of_N n <=? INT_MAX) = true) as -> by now apply Z.leb_le.
    now rewrite uint32_of_small. }
  unfold AssociationCallback, DisassociationCallback. now rewrite Hid.
Qed.

Lemma node_id_round_trip_witness :
  node_id_of_context (assoc_context 3) = Ok 3%N.
Proof.
  apply (node_id_round_trip 3
           "List/0/$ns3::WifiNetDevice/Mac/$ns3::StaWifiMac/Assoc" 0
           Tracker.ap1 Tracker.initial_globals); vm_compute; discriminate.
Defined.

(** X3. The station number goes through an [int]: a number above [INT_MAX],
    although it would fit the [uint32_t] that receives it, makes
    [std::stoi] throw [std::out_of_range], and the callback ends there. *)
Theorem node_id_above_INT_MAX (n : N) (rest : string) (t : Q)
    (ap : Mac48Address) (g : Tracker.Globals) :
  let context := ("/NodeList/" +:+ show_uint n +:+ "/Device" +:+ rest)%string in
  INT_MAX < Z.of_N n -> size context <= npos ->
  node_id_of_context context = Throw out_of_range /\
  AssociationCallback t context ap g = Throw out_of_range /\
  DisassociationCallback t context ap g = Throw out_of_range.
Proof.
  intros context Hn Hsize.
  assert (Hid : node_id_of_context context = Throw out_of_range).
  { subst context. destruct (show_uint_segment n) as [Hfree Hhead].
    unfold node_id_of_context.
    rewrite (nodeIdStr_between_markers _ rest Hfree Hhead (segment_size _ _ Hsize)).
    rewrite stoi_show_uint.
    assert ((Z.of_N n <=? INT_MAX) = false) as -> by now apply Z.leb_gt.
    reflexivity. }
  unfold AssociationCallback, DisassociationCallback. now rewrite Hid.
Qed.

Lemma node_id_above_INT_MAX_witness :
  node_id_of_context (assoc_context 4294967295) = Throw out_of_range.
Proof.
  apply (node_id_above_INT_MAX 4294967295
           "List/0/$ns3::WifiNetDevice/Mac/$ns3::StaWifiMac/Assoc" 0
           Tracker.ap1 Tracker.initial_globals); vm_compute; [reflexivity|discriminate].
Defined.

(** X4. When nothing that can start a number stands between the markers (the
    segment is empty, or begins with a character that is neither a blank,
    a sign nor a digit), [std::stoi] throws [std::invalid_argument]. *)
Theorem node_id_not_a_number (mid rest : string) :
  char_free "/" mid = true -> starts_with "Device" mid = false ->
  size mid < 2 ^ 64 ->
  match mid with
  | EmptyString => True
  | String c _ =>
      isspace c = false /\ isdigit c = false /\
      Ascii.eqb c "-" = false /\ Ascii.eqb c "+" = false
  end ->
  node_id_of_context ("/NodeList/" +:+ mid +:+ "/Device" +:+ rest) =
    Throw invalid_argument.
Proof.
  intros Hfree Hhead Hsize Hc. unfold node_id_of_context.
  rewrite (nodeIdStr_between_markers mid rest Hfree Hhead Hsize).
  destruct mid as [|c mid]; [reflexivity|].
  destruct Hc as (Hsp & Hd & Hm & Hp).
  unfold stoi. cbn [skip_spaces]. rewrite Hsp, Hm, Hp.
  cbn [starts_with_digit]. now rewrite Hd.
Qed.

Lemma node_id_not_a_number_witness :
  node_id_of_context "/NodeList/x7/DeviceList/0" = Throw invalid_argument.
Proof.
  apply (node_id_not_a_number "x7" "List/0"); [reflexivity|reflexivity| |].
  - vm_compute. reflexivity.
  - repeat split; reflexivity.
Defined.

(** X5. A context without "/NodeList/" is not recognised as such: [start] is
    [npos], [start + 10] wraps to 9, and the number is read from the tenth
    character on.  A context shorter than nine characters makes [substr]
    throw [std::out_of_range]. *)
Theorem node_id_without_NodeList (context : string) :
  find context "/NodeList/" 0 = npos -> size context < npos ->
  node_id_of_context context =
    if size context <? 9 then Throw out_of_range
    else match stoi (string_drop 9 context) with
         | Throw e => Throw e
         | Ok value => Ok (Z.to_N (value mod 2 ^ 32))
         end.
Proof.
  intros Hstart Hsize. unfold node_id_of_context. rewrite Hstart.
  assert (Hend : find context "/Device" npos = npos).
  { unfold find. now apply Z.ltb_lt in Hsize as ->. }
  rewrite Hend.
  change (size_type (npos + 10)) with 9.
  change (size_type (npos - 9)) with (npos - 9).
  unfold substr. destruct (size context <? 9) eqn:E; [reflexivity|].
  apply Z.ltb_ge in E.
  replace (Z.min (npos - 9) (size context - 9)) with (size context - 9) by lia.
  change (Z.to_nat 9) with 9%nat.
  assert (Hlen : Z.to_nat (size context - 9) = String.length (string_drop 9 context)).
  { unfold size in *. rewrite string_drop_length by lia. lia. }
  now rewrite Hlen, string_take_all.
Qed.

Lemma node_id_without_NodeList_witness :
  node_id_of_context "NodeList=42/DeviceList/0" = Ok 42%N /\
  node_id_of_context "Node/7" = Throw out_of_range.
Proof.
  split.
  - rewrite (node_id_without_NodeList "NodeList=42/DeviceList/0");
      vm_compute; reflexivity.
  - rewrite (node_id_without_NodeList "Node/7"); vm_compute; reflexivity.
Defined.

(** X6. A context that has "/NodeList/" but no "/Device" after it does not
    fail on that account: the number is read up to the end of the
    string. *)
Theorem node_id_without_Device (mid : string) :
  let context := ("/NodeList/" +:+ mid)%string in
  find context "/Device" 0 = npos -> size context <= npos ->
  node_id_of_context context =
    match stoi mid with
    | Throw e => Throw e
    | Ok value => Ok (Z.to_N (value mod 2 ^ 32))
    end.
Proof.
  intros context Hend Hsize. unfold node_id_of_context.
  subst context. rewrite find_NodeList, Hend.
  change (size_type (0 + 10)) with 10.
  change (size_type (npos - 10)) with (npos - 10).
  unfold substr. rewrite size_app in *. change (size "/NodeList/") with 10 in *.
  pose proof (size_nonneg mid).
  assert ((10 + size mid <? 10) = false) as -> by (apply Z.ltb_ge; lia).
  replace (Z.min (npos - 10) (10 + size mid - 10)) with (size mid) by lia.
  unfold size at 1. rewrite Nat2Z.id.
  change (string_drop (Z.to_nat 10) ("/NodeList/" +:+ mid)) with mid.
  now rewrite string_take_all.
Qed.

Lemma node_id_without_Device_witness :
  node_id_of_context "/NodeList/5" = Ok 5%N.
Proof.
  apply (node_id_without_Device "5"); vm_compute; [reflexivity|discriminate].
Defined.

End Context.

(** ** More on the association callbacks: what a whole history leaves *)

Module TrackerFacts.
Import Text Show Ns3 Tracker.

Definition is_Associate (e : Event) : bool :=
  match e with
  | Associate _ _ _ => true
  | Disassociate _ _ _ => false
  end.

Definition event_station (e : Event) : N :=
  match e with
  | Associate _ s _ => s
  | Disassociate _ s _ => s
  end.

Definition row_station {T : Type} (r : LogRow T) : N :=
  match r with
  | HANDOVER _ s _ _ => s
  | ASSOC _ s _ => s
  | DEASSOC _ s _ => s
  end.

Definition is_HANDOVER {T : Type} (r : LogRow T) : bool :=
  match r with
  | HANDOVER _ _ _ _ => true
  | _ => false
  end.

Definition is_DEASSOC {T : Type} (r : LogRow T) : bool :=
  match r with
  | DEASSOC _ _ _ => true
  | _ => false
  end.

Fixpoint count {A : Type} (p : A -> bool) (l : list A) : nat :=
  match l with
  | [] => O
  | x :: l' => if p x then S (count p l') else count p l'
  end.

(** A line whose second field is [ty]. *)
Definition has_type (ty : string) (line : string) : bool :=
  match event_type line with
  | Some ty' => String.eqb ty' ty
  | None => false
  end.

(** What handover detection keeps from one event to the next. *)
Definition tracking (g : Globals) : N * gmap N Mac48Address :=
  (handoverCount g, currentAp g).

Lemma count_app {A : Type} (p : A -> bool) (l1 l2 : list A) :
  count p (l1 ++ l2) = (count p l1 + count p l2)%nat.
Proof.
  induction l1 as [|x l1 IH]; [reflexivity|]. cbn [app count].
  destruct (p x); lia.
Qed.

Lemma count_le_length {A : Type} (p : A -> bool) (l : list A) :
  (count p l <= length l)%nat.
Proof. induction l as [|x l IH]; cbn; [lia|]. destruct (p x); lia. Qed.

Lemma count_map {A B : Type} (f : A -> B) (p : B -> bool) (l : list A) :
  count p (map f l) = count (fun x => p (f x)) l.
Proof. induction l as [|x l IH]; cbn; [reflexivity|]. now rewrite IH. Qed.

Lemma count_ext {A : Type} (p q : A -> bool) (l : list A) :
  (forall x, p x = q x) -> count p l = count q l.
Proof. intros H. induction l as [|x l IH]; cbn; [reflexivity|]. now rewrite H, IH. Qed.

Lemma has_type_render (ty : string) (r : Row) :
  has_type ty (render r) =
    String.eqb match r with
               | HANDOVER _ _ _ _ => "HANDOVER"
               | ASSOC _ _ _ => "ASSOC"
               | DEASSOC _ _ _ => "DEASSOC"
               end ty.
Proof.
  unfold has_type, event_type. destruct r as [t s a b|t s a|t s a]; cbn [render].
  - now rewrite handover_line_fields.
  - now rewrite assoc_line_fields.
  - now rewrite deassoc_line_fields.
Qed.

Lemma handover_from_spec (s : N) (ap : Mac48Address) (g : Globals) (prev : Mac48Address) :
  handover_from s ap g = Some prev <-> currentAp g !! s = Some prev /\ prev <> ap.
Proof.
  unfold handover_from. destruct (currentAp g !! s) as [p|].
  - destruct (decide (p <> ap)) as [Hne|He]; split.
    + intros [= ->]. auto.
    + intros [[= ->] _]. reflexivity.
    + discriminate.
    + intros [[= ->] Hne]. contradiction.
  - split; [discriminate|intros [? _]; discriminate].
Qed.

Lemma rows_of_event_tracking (g1 g2 : Globals) (e : Event) :
  currentAp g1 !! event_station e = currentAp g2 !! event_station e ->
  rows_of_event g1 e = rows_of_event g2 e.
Proof.
  destruct e as [t s ap|t s ap]; cbn [event_station rows_of_event]; [|reflexivity].
  intros H. unfold handover_from. now rewrite H.
Qed.

Lemma tracking_handle (g1 g2 : Globals) (e : Event) :
  tracking g1 = tracking g2 -> tracking (handle g1 e) = tracking (handle g2 e).
Proof.
  unfold tracking. intros [= Hc Hm].
  destruct e as [t s ap|t s ap]; cbn [handle].
  - rewrite !handoverCount_AssociationCallback, !currentAp_AssociationCallback.
    unfold handover_from. now rewrite Hc, Hm.
  - cbn. now rewrite Hc, Hm.
Qed.

Lemma tracking_Disassociate (g : Globals) (t : Q) (s : N) (ap : Mac48Address) :
  tracking (handle g (Disassociate t s ap)) = tracking g.
Proof. reflexivity. Qed.

Lemma tracking_run (evs : list Event) (g1 g2 : Globals) :
  tracking g1 = tracking g2 -> tracking (run evs g1) = tracking (run evs g2).
Proof.
  revert g1 g2. induction evs as [|e evs IH]; intros g1 g2 H; [exact H|].
  change (run (e :: evs) ?g) with (run evs (handle g e)).
  now apply IH, tracking_handle.
Qed.

Lemma logged_rows_tracking (evs : list Event) (g1 g2 : Globals) :
  tracking g1 = tracking g2 -> logged_rows evs g1 = logged_rows evs g2.
Proof.
  revert g1 g2. induction evs as [|e evs IH]; intros g1 g2 H; [reflexivity|].
  cbn [logged_rows]. rewrite (IH _ _ (tracking_handle _ _ e H)).
  f_equal. apply rows_of_event_tracking. injection H as _ Hm. now rewrite Hm.
Qed.

(** *** The counter and the log agree *)

Lemma handoverCount_run_rows (evs : list Event) (g : Globals) :
  (handoverCount g < UINT32_MODULUS)%N ->
  handoverCount (run evs g) =
    ((handoverCount g + N.of_nat (count is_HANDOVER (logged_rows evs g)))
       mod UINT32_MODULUS)%N.
Proof.
  revert g. induction evs as [|e evs IH]; intros g Hg.
  - cbn. rewrite N.add_0_r. symmetry. now apply N.mod_small.
  - change (run (e :: evs) g) with (run evs (handle g e)).
    cbn [logged_rows]. rewrite count_app.
    assert (Hstep : handoverCount (handle g e) =
              ((handoverCount g + N.of_nat (count is_HANDOVER (rows_of_event g e)))
                 mod UINT32_MODULUS)%N).
    { destruct e as [t s ap|t s ap]; cbn [handle rows_of_event].
      - rewrite handoverCount_AssociationCallback.
        destruct (handover_from s ap g); cbn [count is_HANDOVER].
        + reflexivity.
        + rewrite N.add_0_r. symmetry. now apply N.mod_small.
      - cbn. rewrite N.add_0_r. symmetry. now apply N.mod_small. }
    rewrite IH.
    + rewrite Hstep, Nat2N.inj_add, N.Div0.add_mod_idemp_l. f_equal. lia.
    + rewrite Hstep. apply N.mod_lt. discriminate.
Qed.

Lemma count_HANDOVER_le (evs : list Event) (g : Globals) :
  (count is_HANDOVER (logged_rows evs g) <= length evs)%nat.
Proof.
  revert g. induction evs as [|e evs IH]; intros g; [cbn; lia|].
  cbn [logged_rows length]. rewrite count_app. specialize (IH (handle g e)).
  assert (count is_HANDOVER (rows_of_event g e) <= 1)%nat.
  { destruct e as [t s ap|t s ap]; cbn [rows_of_event]; [|cbn; lia].
    destruct (handover_from s ap g); cbn; lia. }
  lia.
Qed.

Lemma count_lines_file (ty : string) (evs : list Event) :
  String.eqb "EventType" ty = false ->
  count (has_type ty) (handoverFile (run evs initial_globals)) =
    count (fun r : Row => has_type ty (render r)) (logged_rows evs initial_globals).
Proof.
  intros Hty. rewrite handoverFile_run. cbn [initial_globals handoverFile app count].
  change (has_type ty header) with (String.eqb "EventType" ty). rewrite Hty.
  apply count_map.
Qed.

(** X7. The handover counter is the number of HANDOVER lines in the file,
    modulo [2^32], and exactly that number after fewer than [2^32]
    events. *)
Theorem handoverCount_is_HANDOVER_lines (evs : list Event) :
  let g := run evs initial_globals in
  handoverCount g =
    (N.of_nat (count (has_type "HANDOVER") (handoverFile g)) mod 2 ^ 32)%N /\
  ((N.of_nat (length evs) < 2 ^ 32)%N ->
   handoverCount g = N.of_nat (count (has_type "HANDOVER") (handoverFile g))).
Proof.
  intros g. subst g.
  assert (Hc : count (has_type "HANDOVER") (handoverFile (run evs initial_globals)) =
               count is_HANDOVER (logged_rows evs initial_globals)).
  { rewrite count_lines_file by reflexivity. apply count_ext.
    intros r. rewrite has_type_render. now destruct r. }
  rewrite Hc.
  pose proof (handoverCount_run_rows evs initial_globals eq_refl) as H.
  cbn [initial_globals handoverCount] in H. rewrite N.add_0_l in H.
  split; [exact H|].
  intros Hlen. rewrite H. apply N.mod_small.
  pose proof (count_HANDOVER_le evs initial_globals). unfold UINT32_MODULUS. lia.
Qed.

Lemma handoverCount_is_HANDOVER_lines_witness :
  handoverCount (run scenario initial_globals) =
    N.of_nat (count (has_type "HANDOVER") (handoverFile (run scenario initial_globals))).
Proof.
  apply (handoverCount_is_HANDOVER_lines scenario). vm_compute. reflexivity.
Defined.

(** X8. Every [Associate] leaves exactly one ASSOC line and every
    [Disassociate] exactly one DEASSOC line, so the file has one line for
    the header, one per event and one more per handover. *)
Theorem lines_per_event (evs : list Event) :
  let file := handoverFile (run evs initial_globals) in
  count (has_type "ASSOC") file = count is_Associate evs /\
  count (has_type "DEASSOC") file = count (fun e => negb (is_Associate e)) evs /\
  length file = (1 + length evs + count (has_type "HANDOVER") file)%nat.
Proof.
  intros file. subst file.
  rewrite !count_lines_file by reflexivity.
  rewrite handoverFile_run. cbn [initial_globals handoverFile app length].
  rewrite length_map. generalize initial_globals.
  induction evs as [|e evs IH]; intros g; [cbn; auto|].
  cbn [logged_rows]. rewrite !count_app, length_app.
  destruct (IH (handle g e)) as (IHa & IHd & IHl). rewrite IHa, IHd.
  destruct e as [t s ap|t s ap]; cbn [rows_of_event is_Associate count negb length].
  - destruct (handover_from s ap g); cbn [count length];
      rewrite !has_type_render; cbn in *; repeat split; lia.
  - cbn [count length]. rewrite !has_type_render. cbn in *. repeat split; lia.
Qed.

(** *** Disassociations are invisible to handover detection *)

(** X9. Removing every [Disassociate] from a history changes neither the
    handover counter nor the recorded access points, and removes exactly
    the DEASSOC rows from the log: a station that disassociates and then
    associates elsewhere is counted as handing over from the access point
    it had left. *)
Theorem Disassociate_is_transparent (evs : list Event) (g : Globals) :
  let kept := List.filter is_Associate evs in
  handoverCount (run evs g) = handoverCount (run kept g) /\
  currentAp (run evs g) = currentAp (run kept g) /\
  logged_rows kept g =
    List.filter (fun r => negb (is_DEASSOC r)) (logged_rows evs g).
Proof.
  intros kept. subst kept.
  assert (Ht : forall g1 g2, tracking g1 = tracking g2 ->
                 tracking (run evs g1) = tracking (run (List.filter is_Associate evs) g2) /\
                 logged_rows (List.filter is_Associate evs) g2 =
                   List.filter (fun r => negb (is_DEASSOC r)) (logged_rows evs g1)).
  { induction evs as [|e evs IH]; intros g1 g2 H; [now split|].
    change (run (e :: evs) g1) with (run evs (handle g1 e)).
    destruct e as [t s ap|t s ap]; cbn [List.filter is_Associate logged_rows].
    - change (run (Associate t s ap :: ?l) g2)
        with (run l (handle g2 (Associate t s ap))).
      destruct (IH _ _ (tracking_handle g1 g2 (Associate t s ap) H)) as [IH1 IH2].
      split; [exact IH1|]. cbn [logged_rows]. rewrite IH2, List.filter_app.
      f_equal.
      rewrite (rows_of_event_tracking g2 g1)
        by (injection H as _ Hm; now rewrite Hm).
      cbn [rows_of_event]. now destruct (handover_from s ap g1).
    - destruct (IH (handle g1 (Disassociate t s ap)) g2) as [IH1 IH2].
      { now rewrite tracking_Disassociate. }
      split; [exact IH1|]. now rewrite IH2. }
  destruct (Ht g g eq_refl) as [H1 H2]. injection H1 as Hc Hm. auto.
Qed.

(** *** The shape of the log *)

(** X10. A HANDOVER row never names the same access point twice, and the row
    right after it is the ASSOC row of the same instant and station for the
    access point handed over to. *)
Theorem HANDOVER_row_then_ASSOC (evs : list Event) (g : Globals) (k : nat)
    (t : Q) (s : N) (a b : Mac48Address) :
  logged_rows evs g !! k = Some (HANDOVER t s a b) ->
  a <> b /\ logged_rows evs g !! S k = Some (ASSOC t s b).
Proof.
  revert g k. induction evs as [|e evs IH]; intros g k; [discriminate|].
  cbn [logged_rows].
  destruct e as [t' s' ap|t' s' ap]; cbn [rows_of_event].
  - destruct (handover_from s' ap g) as [prev|] eqn:E.
    + destruct k as [|[|k]]; cbn.
      * intros [= -> -> -> ->]. apply handover_from_spec in E as [_ Hne]. auto.
      * discriminate.
      * apply IH.
    + destruct k as [|k]; cbn; [discriminate|apply IH].
  - destruct k as [|k]; cbn; [discriminate|apply IH].
Qed.

Lemma HANDOVER_row_then_ASSOC_witness :
  ap1 <> ap2 /\
  logged_rows scenario initial_globals !! 2%nat = Some (ASSOC 5%Q 0%N ap2).
Proof.
  apply (HANDOVER_row_then_ASSOC scenario initial_globals 1 5%Q 0%N ap1 ap2).
  vm_compute. reflexivity.
Defined.

(** *** The map of recorded access points *)

Lemma last_associated_Some (s : N) (evs : list Event) :
  is_Some (last_associated s evs) <-> exists t ap, Associate t s ap ∈ evs.
Proof.
  induction evs as [|e evs IH].
  - split; [intros [? [=]]|intros (t & ap & H); inversion H].
  - cbn [last_associated]. destruct (last_associated s evs) as [ap'|].
    + split; [|eauto]. intros _.
      destruct (proj1 IH) as (t & ap & Hin); [eauto|].
      exists t, ap. now right.
    + split.
      * destruct e as [t s' ap|]; [|intros [? [=]]].
        destruct (decide (s' = s)) as [->|]; [|intros [? [=]]].
        intros _. exists t, ap. left.
      * intros (t & ap & Hin). apply elem_of_cons in Hin as [<-|Hin].
        -- rewrite decide_True by reflexivity. eauto.
        -- destruct (proj2 IH) as [? [=]]. eauto.
Qed.

(** X11. After any history, a station has an entry in [currentAp] exactly when
    it has associated at least once; an entry, once made, is never removed,
    whatever events follow. *)
Theorem currentAp_entries (evs more : list Event) (s : N) :
  (is_Some (currentAp (run evs initial_globals) !! s) <->
   exists t ap, Associate t s ap ∈ evs) /\
  (is_Some (currentAp (run evs initial_globals) !! s) ->
   is_Some (currentAp (run (evs ++ more) initial_globals) !! s)).
Proof.
  rewrite !currentAp_initial_run. split; [apply last_associated_Some|].
  rewrite !last_associated_Some. intros (t & ap & Hin).
  exists t, ap. apply elem_of_app. now left.
Qed.

Lemma currentAp_entries_witness :
  is_Some (currentAp (run (scenario ++ [Disassociate 9 0%N ap2]) initial_globals) !! 0%N).
Proof.
  apply (currentAp_entries scenario [Disassociate 9 0%N ap2] 0%N).
  vm_compute. eauto.
Defined.

(** X12. Handovers are bounded by what was seen: the counter plus the number
    of stations recorded never exceeds the number of [Associate] events,
    since the first association of each station is not a handover. *)
Theorem handovers_bounded (evs : list Event) :
  let g := run evs initial_globals in
  (handoverCount g + N.of_nat (size (currentAp g)) <=
   N.of_nat (count is_Associate evs))%N.
Proof.
  intros g. subst g.
  assert (H : forall g0,
    (handoverCount (run evs g0) + N.of_nat (size (currentAp (run evs g0))) <=
     handoverCount g0 + N.of_nat (size (currentAp g0)) +
     N.of_nat (count is_Associate evs))%N).
  { induction evs as [|e evs IH]; intros g0; [cbn; lia|].
    change (run (e :: evs) g0) with (run evs (handle g0 e)).
    specialize (IH (handle g0 e)).
    destruct e as [t s ap|t s ap]; cbn [count is_Associate].
    - cbn [handle] in *.
      rewrite handoverCount_AssociationCallback, currentAp_AssociationCallback in IH.
      unfold handover_from in IH.
      destruct (currentAp g0 !! s) as [prev|] eqn:E.
      + rewrite map_size_insert_Some in IH by (rewrite E; eauto).
        destruct (decide (prev <> ap)).
        * pose proof (N.Div0.mod_le (handoverCount g0 + 1) UINT32_MODULUS). lia.
        * lia.
      + rewrite map_size_insert_None in IH by exact E. lia.
    - cbn [handle] in *. cbn in IH. lia. }
  specialize (H initial_globals). cbn [initial_globals handoverCount currentAp] in H.
  rewrite map_size_empty in H. lia.
Qed.

(** *** Stations do not disturb one another *)

(** X13. The rows a station gets in the log are those it would get if the
    events of all other stations were left out: whether an association is a
    handover depends on that station's own history only. *)
Theorem station_rows_independent (evs : list Event) (s : N) :
  List.filter (fun r => N.eqb (row_station r) s) (logged_rows evs initial_globals) =
  logged_rows (List.filter (fun e => N.eqb (event_station e) s) evs) initial_globals.
Proof.
  assert (H : forall g1 g2, currentAp g1 !! s = currentAp g2 !! s ->
    List.filter (fun r => N.eqb (row_station r) s) (logged_rows evs g1) =
    logged_rows (List.filter (fun e => N.eqb (event_station e) s) evs) g2).
  { induction evs as [|e evs IH]; intros g1 g2 Hs; [reflexivity|].
    cbn [logged_rows List.filter]. rewrite List.filter_app.
    destruct (N.eqb_spec (event_station e) s) as [He|He].
    - cbn [logged_rows]. f_equal.
      + rewrite (rows_of_event_tracking g2 g1) by now rewrite He.
        destruct e as [t s' ap|t s' ap]; cbn [event_station] in He; subst s';
          cbn [rows_of_event]; [destruct (handover_from s ap g1)|];
          cbn [List.filter row_station]; now rewrite N.eqb_refl.
      + apply IH.
        destruct e as [t s' ap|t s' ap]; cbn [event_station] in He; subst s';
          cbn [handle]; [|exact Hs].
        rewrite !currentAp_AssociationCallback. now rewrite !lookup_insert_eq.
    - assert (Hnil : List.filter (fun r => N.eqb (row_station r) s) (rows_of_event g1 e) = []).
      { apply N.eqb_neq in He.
        destruct e as [t s' ap|t s' ap]; cbn [event_station] in He;
          cbn [rows_of_event]; [destruct (handover_from s' ap g1)|];
          cbn [List.filter row_station]; now rewrite He. }
      rewrite Hnil. cbn [app]. apply IH.
      destruct e as [t s' ap|t s' ap]; cbn [event_station] in He; cbn [handle];
        [|exact Hs].
      rewrite currentAp_AssociationCallback. now rewrite lookup_insert_ne.
  }
  now apply H.
Qed.

End TrackerFacts.

(** ** More on [CalculateRssi] *)

Module RssiFacts.
Import Rssi.
Local Open Scope R_scope.

Lemma euclideanNorm_nonneg (a b : Vector) : 0 <= euclideanNorm a b.
Proof. apply sqrt_pos. Qed.

Lemma euclideanNorm_sym (a b : Vector) : euclideanNorm a b = euclideanNorm b a.
Proof. unfold euclideanNorm. f_equal. ring. Qed.

Lemma log10_1 : log10 1 = 0.
Proof. unfold log10. rewrite ln_1. field. pose proof ln_10_pos. lra. Qed.

Lemma log10_mult (a b : R) : 0 < a -> 0 < b -> log10 (a * b) = log10 a + log10 b.
Proof.
  intros Ha Hb. unfold log10. rewrite ln_mult by assumption.
  field. pose proof ln_10_pos. lra.
Qed.

Lemma log10_pos (a : R) : 1 < a -> 0 < log10 a.
Proof. intros Ha. rewrite <- log10_1. apply log10_increasing; lra. Qed.

Lemma rssi_at_monotone (d1 d2 : R) : d1 <= d2 -> rssi_at d2 <= rssi_at d1.
Proof.
  intros H. destruct (Rle_dec d2 referenceDistance) as [H2|H2].
  - rewrite !rssi_at_near by lra. lra.
  - apply Rnot_le_lt in H2. destruct (Rle_dec d1 referenceDistance) as [H1|H1].
    + rewrite (rssi_at_near d1), (rssi_at_far d2) by assumption.
      unfold referenceDistance, exponent in *.
      assert (0 < log10 (d2 / 1)) by (apply log10_pos; lra). lra.
    + apply Rnot_le_lt in H1. destruct (Req_dec d1 d2) as [->|Hne]; [lra|].
      apply Rlt_le, rssi_at_decreasing; lra.
Qed.

(** X14. The RSSI does not depend on which end transmits: exchanging the two
    positions gives the same value, in both files. *)
Theorem CalculateRssi_symmetric (a b : Vector) :
  WifiRoamingV4.CalculateRssi a b = WifiRoamingV4.CalculateRssi b a /\
  RoamingSaturation.CalculateRssi a b = RoamingSaturation.CalculateRssi b a.
Proof.
  rewrite !Saturation_rssi_at, !V4_rssi_at, (euclideanNorm_sym a b). auto.
Qed.

(** X15. The RSSI never exceeds [txPowerDbm - referenceLoss] (-30.6777 dBm),
    and it is that value exactly when the two positions are at most the
    reference distance apart. *)
Theorem CalculateRssi_bounded (tx rx : Vector) :
  WifiRoamingV4.CalculateRssi tx rx <= txPowerDbm - referenceLoss /\
  (WifiRoamingV4.CalculateRssi tx rx = txPowerDbm - referenceLoss <->
   euclideanNorm tx rx <= referenceDistance) /\
  txPowerDbm - referenceLoss = - (306777 / 10000).
Proof.
  rewrite V4_rssi_at. set (d := euclideanNorm tx rx).
  assert (Hfar : referenceDistance < d -> rssi_at d < txPowerDbm - referenceLoss).
  { intros Hd. rewrite rssi_at_far by assumption.
    unfold referenceDistance, exponent in *.
    assert (0 < log10 (d / 1)) by (apply log10_pos; lra). lra. }
  split; [|split].
  - destruct (Rle_dec d referenceDistance) as [Hd|Hd].
    + rewrite rssi_at_near by assumption. lra.
    + apply Rnot_le_lt in Hd. apply Rlt_le. auto.
  - split.
    + intros Heq. destruct (Rle_dec d referenceDistance) as [Hd|Hd]; [exact Hd|].
      apply Rnot_le_lt, Hfar in Hd. lra.
    + apply rssi_at_near.
  - unfold txPowerDbm, referenceLoss. lra.
Qed.

(** X16. Over the whole range of distances, not only beyond the reference
    distance, a position at least as far gets at most the same RSSI: the
    two branches meet at the reference distance without a jump. *)
Theorem CalculateRssi_monotone_everywhere (tx1 rx1 tx2 rx2 : Vector) :
  euclideanNorm tx1 rx1 <= euclideanNorm tx2 rx2 ->
  WifiRoamingV4.CalculateRssi tx2 rx2 <= WifiRoamingV4.CalculateRssi tx1 rx1 /\
  RoamingSaturation.CalculateRssi tx2 rx2 <= RoamingSaturation.CalculateRssi tx1 rx1.
Proof.
  intros H. rewrite !Saturation_rssi_at, !V4_rssi_at.
  pose proof (rssi_at_monotone _ _ H). lra.
Qed.

Lemma CalculateRssi_monotone_everywhere_witness :
  WifiRoamingV4.CalculateRssi (MkVector 0 0 0) (MkVector 10 0 0) <=
  WifiRoamingV4.CalculateRssi (MkVector 0 0 0) (MkVector (1 / 2) 0 0).
Proof.
  apply (CalculateRssi_monotone_everywhere
           (MkVector 0 0 0) (MkVector (1 / 2) 0 0) (MkVector 0 0 0) (MkVector 10 0 0)).
  rewrite !euclideanNorm_x_axis by lra. lra.
Defined.

(** X17. With the exponent 3, ten times the distance costs exactly 30 dB, from
    the reference distance on. *)
Theorem CalculateRssi_per_decade (tx rx rx' : Vector) :
  referenceDistance <= euclideanNorm tx rx ->
  euclideanNorm tx rx' = 10 * euclideanNorm tx rx ->
  WifiRoamingV4.CalculateRssi tx rx' = WifiRoamingV4.CalculateRssi tx rx - 30.
Proof.
  intros Hd H10. rewrite !V4_rssi_at, H10. set (d := euclideanNorm tx rx) in *.
  unfold referenceDistance in Hd.
  rewrite (rssi_at_far (10 * d)) by (unfold referenceDistance; lra).
  assert (Hlog : log10 (10 * d / referenceDistance) = 1 + log10 (d / referenceDistance)).
  { unfold referenceDistance. replace (10 * d / 1) with (10 * (d / 1)) by field.
    rewrite log10_mult by lra. now rewrite log10_10. }
  rewrite Hlog.
  destruct (Req_dec d 1) as [->|Hne].
  - rewrite rssi_at_near by (unfold referenceDistance; lra).
    unfold referenceDistance, exponent. replace (1 / 1) with 1 by field.
    rewrite log10_1. lra.
  - rewrite (rssi_at_far d) by (unfold referenceDistance; lra).
    unfold exponent. lra.
Qed.

Lemma CalculateRssi_per_decade_witness :
  WifiRoamingV4.CalculateRssi (MkVector 0 0 0) (MkVector 20 0 0) =
  WifiRoamingV4.CalculateRssi (MkVector 0 0 0) (MkVector 2 0 0) - 30.
Proof.
  apply (CalculateRssi_per_decade (MkVector 0 0 0) (MkVector 2 0 0) (MkVector 20 0 0)).
  - rewrite euclideanNorm_x_axis by lra. unfold referenceDistance. lra.
  - rewrite !euclideanNorm_x_axis by lra. lra.
Defined.

(** Where [main] puts the two access points. *)
Definition ap1_position : Vector := MkVector 0 0 0.
Definition ap2_position (apDistance : R) : Vector := MkVector apDistance 0 0.

(** X18. With the access points placed as [main] places them, the one the
    station is nearer to along the x axis is never the weaker one: the two
    RSSI values of a station cross midway between the access points. *)
Theorem nearer_ap_is_not_weaker (apDistance : R) (sta : Vector) :
  0 < apDistance ->
  (x sta <= apDistance / 2 ->
   WifiRoamingV4.CalculateRssi (ap2_position apDistance) sta <=
   WifiRoamingV4.CalculateRssi ap1_position sta) /\
  (apDistance / 2 <= x sta ->
   WifiRoamingV4.CalculateRssi ap1_position sta <=
   WifiRoamingV4.CalculateRssi (ap2_position apDistance) sta).
Proof.
  intros HD. rewrite !V4_rssi_at.
  split; intros Hx; apply rssi_at_monotone; unfold euclideanNorm;
    apply sqrt_le_1_alt; unfold ap1_position, ap2_position; cbn [x y z].
  - assert (0 <= apDistance * (apDistance - 2 * x sta))
      by (apply Rmult_le_pos; lra).
    nra.
  - assert (0 <= apDistance * (2 * x sta - apDistance))
      by (apply Rmult_le_pos; lra).
    nra.
Qed.

Lemma nearer_ap_is_not_weaker_witness :
  WifiRoamingV4.CalculateRssi (ap2_position 60) (MkVector 10 2 0) <=
  WifiRoamingV4.CalculateRssi ap1_position (MkVector 10 2 0).
Proof.
  apply (proj1 (nearer_ap_is_not_weaker 60 (MkVector 10 2 0) ltac:(lra))).
  cbn [x]. lra.
Defined.

End RssiFacts.

(** ** RssiSampler: [RssiMonitorCallback] *)

Module RssiSampler.
Import Ns3 Rssi.

(** Modelled from the spec: a node's mobility model, the engine's
    [GetPosition()] as a function of the virtual time at which it is
    called. *)
Abbreviation MobilityModel := (Time -> Vector).

(** [MilliSeconds(ms)] *)
Definition MilliSeconds (ms : Z) : Time := ms * 1000000.

(** The six values streamed into one line of rssi_measurements.csv.
    Positions and RSSI are reals here, so the line is kept as these values
    and not as text. *)
Record RssiSample : Type := MkSample {
  Time_ : Q;
  StationID : N;
  APID : N;
  PosX : R;
  PosY : R;
  RSSI : R
}.

(** The inner loop, over the access points, for station [i] at
    [staPosition]. *)
Definition ap_loop (currentTime : Q) (i : nat) (staPosition : Vector)
    (now : Time) (apNodes : list MobilityModel) : list RssiSample :=
  imap (fun j apMobility =>
          let rssi := WifiRoamingV4.CalculateRssi (apMobility now) staPosition in
          {| Time_ := currentTime; StationID := N.of_nat i; APID := N.of_nat j;
             PosX := x staPosition; PosY := y staPosition; RSSI := rssi |})
       apNodes.

(** The outer loop, over the stations: what one call writes. *)
Definition sta_loop (now : Time) (staNodes apNodes : list MobilityModel)
  : list RssiSample :=
  let currentTime := GetSeconds now in
  concat (imap (fun i staMobility =>
                  let staPosition := staMobility now in
                  ap_loop currentTime i staPosition now apNodes)
               staNodes).

(** [RssiMonitorCallback] called at [now]: it appends the samples to
    [rssiFile] and schedules itself again 100 ms later; the result pairs the
    file with the time of that next call.  The console narration is left
    out. *)
Definition RssiMonitorCallback (now : Time) (staNodes apNodes : list MobilityModel)
    (rssiFile : list RssiSample) : list RssiSample * Time :=
  (rssiFile ++ sta_loop now staNodes apNodes, now + MilliSeconds 100).

(** The engine running the callback and then, each time, the call it
    scheduled, for [calls] calls in all. *)
Fixpoint run_calls (calls : nat) (now : Time) (staNodes apNodes : list MobilityModel)
    (rssiFile : list RssiSample) : list RssiSample * Time :=
  match calls with
  | O => (rssiFile, now)
  | S calls' =>
      let '(rssiFile', next) := RssiMonitorCallback now staNodes apNodes rssiFile in
      run_calls calls' next staNodes apNodes rssiFile'
  end.

(** *** Lists of blocks of one length *)

Lemma concat_uniform_length {A : Type} (m : nat) (bs : list (list A)) :
  Forall (fun b => length b = m) bs -> length (concat bs) = (length bs * m)%nat.
Proof.
  induction 1 as [|b bs Hb _ IH]; [reflexivity|].
  cbn [concat length]. rewrite length_app, IH, Hb. lia.
Qed.

Lemma concat_uniform_lookup {A : Type} (m : nat) (bs : list (list A)) (n j : nat) :
  Forall (fun b => length b = m) bs -> (j < m)%nat ->
  concat bs !! (n * m + j)%nat = bs !! n ≫= (fun b => b !! j).
Proof.
  intros Hbs Hj. revert n. induction Hbs as [|b bs Hb _ IH]; intros n.
  - now destruct n.
  - cbn [concat]. destruct n as [|n].
    + cbn. apply lookup_app_l. lia.
    + rewrite lookup_app_r by (rewrite Hb; lia).
      replace (S n * m + j - length b)%nat with (n * m + j)%nat by (rewrite Hb; lia).
      apply IH.
Qed.

Lemma ap_loop_length (t : Q) (i : nat) (p : Vector) (now : Time) (aps : list MobilityModel) :
  length (ap_loop t i p now aps) = length aps.
Proof. apply length_imap. Qed.

Lemma sta_loop_blocks (now : Time) (stas aps : list MobilityModel) :
  Forall (fun b : list RssiSample => length b = length aps)
    (imap (fun i staMobility => ap_loop (GetSeconds now) i (staMobility now) now aps) stas).
Proof.
  apply Forall_forall. intros b Hb.
  apply list_elem_of_lookup in Hb as [i Hi].
  rewrite list_lookup_imap in Hi.
  apply fmap_Some in Hi as (sta & _ & ->). apply ap_loop_length.
Qed.

Lemma sta_loop_length (now : Time) (stas aps : list MobilityModel) :
  length (sta_loop now stas aps) = (length stas * length aps)%nat.
Proof.
  unfold sta_loop. rewrite (concat_uniform_length (length aps)) by apply sta_loop_blocks.
  now rewrite length_imap.
Qed.

Lemma sta_loop_lookup (now : Time) (staNodes apNodes : list MobilityModel)
    (i j : nat) (sta ap : MobilityModel) :
  staNodes !! i = Some sta -> apNodes !! j = Some ap ->
  sta_loop now staNodes apNodes !! (i * length apNodes + j)%nat =
    Some {| Time_ := GetSeconds now;
            StationID := N.of_nat i; APID := N.of_nat j;
            PosX := x (sta now); PosY := y (sta now);
            RSSI := WifiRoamingV4.CalculateRssi (ap now) (sta now) |}.
Proof.
  intros Hi Hj. unfold sta_loop.
  rewrite (concat_uniform_lookup (length apNodes)).
  - rewrite list_lookup_imap, Hi. cbn. unfold ap_loop.
    now rewrite list_lookup_imap, Hj.
  - apply sta_loop_blocks.
  - now apply lookup_lt_Some in Hj.
Qed.

(** *** Properties of the sampler *)

(** X19. One call writes one sample for each pair of a station and an access
    point (none when either container is empty), station by station and,
    for each station, access point by access point.  The sample of station
    [i] and access point [j] carries the time of the call, the two indices,
    the station's position at that time, and the RSSI computed with the
    access point as transmitter and the station as receiver. *)
Theorem one_call_samples (now : Time) (staNodes apNodes : list MobilityModel) :
  length (sta_loop now staNodes apNodes) = (length staNodes * length apNodes)%nat /\
  forall (i j : nat) (sta ap : MobilityModel),
    staNodes !! i = Some sta -> apNodes !! j = Some ap ->
    sta_loop now staNodes apNodes !! (i * length apNodes + j)%nat =
      Some {| Time_ := GetSeconds now;
              StationID := N.of_nat i; APID := N.of_nat j;
              PosX := x (sta now); PosY := y (sta now);
              RSSI := WifiRoamingV4.CalculateRssi (ap now) (sta now) |}.
Proof.
  split; [apply sta_loop_length|]. intros i j sta ap. apply sta_loop_lookup.
Qed.

Lemma one_call_samples_witness :
  sta_loop 0 [fun _ => MkVector 0 2 0] [fun _ => MkVector 0 0 0; fun _ => MkVector 60 0 0]
    !! 1%nat =
  Some {| Time_ := GetSeconds 0; StationID := 0; APID := 1;
          PosX := 0%R; PosY := 2%R;
          RSSI := WifiRoamingV4.CalculateRssi (MkVector 60 0 0) (MkVector 0 2 0) |}.
Proof.
  apply (proj2 (one_call_samples 0 [fun _ => MkVector 0 2 0]
                  [fun _ => MkVector 0 0 0; fun _ => MkVector 60 0 0])
           0%nat 1%nat (fun _ => MkVector 0 2 0) (fun _ => MkVector 60 0 0));
    reflexivity.
Defined.

Lemma run_calls_unfold (calls : nat) (now : Time) (stas aps : list MobilityModel)
    (file : list RssiSample) :
  run_calls calls now stas aps file =
    (file ++ concat (map (fun n => sta_loop (now + Z.of_nat n * MilliSeconds 100) stas aps)
                         (seq 0 calls)),
     now + Z.of_nat calls * MilliSeconds 100).
Proof.
  revert now file. induction calls as [|calls IH]; intros now file.
  - cbn [run_calls seq map concat]. rewrite app_nil_r. f_equal. lia.
  - cbn [run_calls RssiMonitorCallback]. rewrite IH. f_equal; [|lia].
    cbn [seq map concat]. rewrite <- app_assoc. f_equal. f_equal.
    + f_equal. lia.
    + f_equal. rewrite <- seq_shift, map_map. apply map_ext.
      intros n. f_equal. lia.
Qed.

(** X20. The sampler is periodic.  After any number of calls starting at [t0],
    the next call is due 100 ms after the last one; call number [n]
    (counting from 0) has added one block of samples, all taken at
    [t0 + n * 100 ms], that is [n / 10] seconds after the first; so the
    samples of a given station and access point follow one another at a
    constant period, later in the file and later in time. *)
Theorem sampler_is_periodic (calls : nat) (t0 : Time)
    (staNodes apNodes : list MobilityModel) (rssiFile : list RssiSample) :
  let out := run_calls calls t0 staNodes apNodes rssiFile in
  let block := (length staNodes * length apNodes)%nat in
  snd out = t0 + Z.of_nat calls * MilliSeconds 100 /\
  length (fst out) = (length rssiFile + calls * block)%nat /\
  forall (n i j : nat) (sta ap : MobilityModel),
    (n < calls)%nat -> staNodes !! i = Some sta -> apNodes !! j = Some ap ->
    let now := t0 + Z.of_nat n * MilliSeconds 100 in
    fst out !! (length rssiFile + n * block + (i * length apNodes + j))%nat =
      Some {| Time_ := GetSeconds now;
              StationID := N.of_nat i; APID := N.of_nat j;
              PosX := x (sta now); PosY := y (sta now);
              RSSI := WifiRoamingV4.CalculateRssi (ap now) (sta now) |} /\
    (GetSeconds now == GetSeconds t0 + inject_Z (Z.of_nat n) / 10)%Q.
Proof.
  intros out block. subst out. rewrite run_calls_unfold. cbn [fst snd].
  set (blocks := map _ (seq 0 calls)).
  assert (Hblocks : Forall (fun b : list RssiSample => length b = block) blocks).
  { apply Forall_forall. intros b Hb. apply list_elem_of_In, in_map_iff in Hb as (n & <- & _).
    apply sta_loop_length. }
  split; [reflexivity|]. split.
  - rewrite length_app, (concat_uniform_length block) by exact Hblocks.
    subst blocks. now rewrite length_map, length_seq.
  - intros n i j sta ap Hn Hi Hj. split.
    + rewrite <- Nat.add_assoc, lookup_app_r by lia.
      replace (length rssiFile + (n * block + (i * length apNodes + j)) - length rssiFile)%nat
        with (n * block + (i * length apNodes + j))%nat by lia.
      rewrite (concat_uniform_lookup block) by
        (try exact Hblocks; apply lookup_lt_Some in Hi, Hj; subst block; nia).
      subst blocks. rewrite list_lookup_fmap, lookup_seq_lt by exact Hn.
      cbn. now apply sta_loop_lookup.
    + unfold GetSeconds, MilliSeconds, Qeq, Qplus, Qdiv, Qmult, Qinv.
      cbn. lia.
Qed.

Lemma sampler_is_periodic_witness :
  fst (run_calls 3 0 [fun t => MkVector (IZR t) 2 0] [fun _ => MkVector 0 0 0] [])
    !! 2%nat =
  Some {| Time_ := GetSeconds (2 * MilliSeconds 100); StationID := 0; APID := 0;
          PosX := IZR (2 * MilliSeconds 100); PosY := 2%R;
          RSSI := WifiRoamingV4.CalculateRssi (MkVector 0 0 0)
                    (MkVector (IZR (2 * MilliSeconds 100)) 2 0) |}.
Proof.
  apply (proj2 (proj2 (sampler_is_periodic 3 0 [fun t => MkVector (IZR t) 2 0]
                         [fun _ => MkVector 0 0 0] []))
           2%nat 0%nat 0%nat (fun t => MkVector (IZR t) 2 0) (fun _ => MkVector 0 0 0));
    [lia|reflexivity|reflexivity].
Defined.

End RssiSampler.

(** ** More on the flow statistics loop *)

Module FlowFacts.
Import Text Show Ns3 FlowStatsAggregator.
Local Open Scope Q_scope.

Lemma to_double_nonneg (n : N) : 0 <= to_double n.
Proof. unfold to_double, Qle. cbn. lia. Qed.

Lemma to_double_pos (n : N) : 0 < to_double n <-> (0 < n)%N.
Proof. unfold to_double, Qlt. cbn. lia. Qed.

Lemma throughput_positive_duration (st : FlowStats) :
  0 < duration st ->
  throughput st == to_double (rxBytes st) * (8 # 1000) / duration st.
Proof.
  intros Hd. unfold throughput.
  destruct (Qlt_le_dec 0 (duration st)) as [_|Hle].
  - field. intros H0. rewrite H0 in Hd. now apply Qlt_irrefl in Hd.
  - exfalso. apply (Qlt_irrefl 0). eapply Qlt_le_trans; eassumption.
Qed.

(** X21. The throughput is never negative, even for a flow whose duration is;
    it is positive exactly when the duration is positive and some byte was
    received.  The mean delay is not negative either when the delay sum is
    not. *)
Theorem throughput_never_negative (st : FlowStats) :
  0 <= throughput st /\
  (0 < throughput st <-> 0 < duration st /\ (0 < rxBytes st)%N) /\
  ((0 <= delaySum st)%Z -> 0 <= mean_delay st).
Proof.
  assert (Hzero : ~ 0 < duration st -> throughput st = 0).
  { intros Hn. unfold throughput.
    destruct (Qlt_le_dec 0 (duration st)); [contradiction|reflexivity]. }
  assert (Hpos : 0 < duration st ->
            (0 < throughput st <-> (0 < rxBytes st)%N) /\ 0 <= throughput st).
  { intros Hd. rewrite (throughput_positive_duration st Hd).
    rewrite <- to_double_pos. pose proof (to_double_nonneg (rxBytes st)) as Hrx.
    assert (Hinv : 0 < / duration st) by now apply Qinv_lt_0_compat.
    unfold Qdiv. split; [split|].
    - intros H.
      destruct (Qlt_le_dec 0 (to_double (rxBytes st))) as [Hlt|Hle]; [exact Hlt|].
      assert (H0 : to_double (rxBytes st) == 0) by now apply Qle_antisym.
      rewrite H0, !Qmult_0_l in H. now apply Qlt_irrefl in H.
    - intros H. apply Qmult_lt_0_compat; [|exact Hinv].
      apply Qmult_lt_0_compat; [exact H|reflexivity].
    - apply Qmult_le_0_compat; [|now apply Qlt_le_weak].
      apply Qmult_le_0_compat; [exact Hrx|discriminate]. }
  split; [|split].
  - destruct (Qlt_le_dec 0 (duration st)) as [Hd|Hd].
    + now apply Hpos.
    + rewrite Hzero; [apply Qle_refl|]. intros H.
      apply (Qlt_irrefl 0). eapply Qlt_le_trans; eassumption.
  - split.
    + intros H. destruct (Qlt_le_dec 0 (duration st)) as [Hd|Hd].
      * split; [exact Hd|]. now apply (proj1 (Hpos Hd)).
      * rewrite Hzero in H; [now apply Qlt_irrefl in H|]. intros H'.
        apply (Qlt_irrefl 0). eapply Qlt_le_trans; eassumption.
    + intros [Hd Hrx]. now apply (proj1 (Hpos Hd)).
  - intros Hs. unfold mean_delay.
    destruct (0 <? rxPackets st)%N eqn:E; [|apply Qle_refl].
    apply N.ltb_lt in E. unfold Qdiv. apply Qmult_le_0_compat.
    + unfold GetSeconds, Qle. cbn. lia.
    + apply Qlt_le_weak, Qinv_lt_0_compat, to_double_pos, E.
Qed.

Lemma throughput_never_negative_witness :
  0 < throughput scenario_flow /\ 0 <= mean_delay scenario_flow.
Proof.
  split.
  - apply (proj1 (proj2 (throughput_never_negative scenario_flow))).
    split; reflexivity.
  - apply (proj2 (proj2 (throughput_never_negative scenario_flow))).
    vm_compute. discriminate.
Defined.

(** X22. Unlike handover_events.csv, flow_stats.csv is rectangular: the header
    and every line have thirteen fields.  The loop writes the flows in the
    order of the snapshot, the line after the header's [k]-th successor
    being the [k]-th flow's, identified by its first field; it writes six
    console lines per flow; and for an empty snapshot the file holds the
    header alone. *)
Theorem flow_stats_csv_shape (classifier : FlowId -> FiveTuple)
    (stats : list (FlowId * FlowStats)) :
  let out := flow_stats_loop classifier stats in
  Forall (fun line => length (fields line) = 13%nat) (flowCsv out) /\
  length (flowCsv out) = S (length stats) /\
  length (cout out) = (6 * length stats)%nat /\
  (forall k flow, stats !! k = Some flow ->
     exists line, flowCsv out !! S k = Some line /\
                  fields line !! 0%nat = Some (show_uint (fst flow))) /\
  (stats = [] -> flowCsv out = [flowCsv_header]).
Proof.
  intros out. subst out. unfold flow_stats_loop.
  rewrite flowCsv_loop, cout_loop. cbn [flowCsv cout app].
  split; [|split; [|split; [|split]]].
  - constructor; [vm_compute; reflexivity|].
    apply Forall_forall. intros line Hin.
    apply list_elem_of_In, in_map_iff in Hin as (flow & <- & _).
    now rewrite flowCsv_line_fields.
  - cbn [length]. now rewrite length_map.
  - induction stats as [|flow stats IH]; [reflexivity|].
    cbn [map concat]. rewrite length_app, IH. cbn [cout_lines length]. lia.
  - intros k flow Hk. eexists. split.
    + change ((flowCsv_header :: ?l) !! S k) with (l !! k).
      rewrite list_lookup_fmap. apply fmap_Some.
      exists flow. split; [exact Hk|reflexivity].
    + now rewrite flowCsv_line_fields.
  - now intros ->.
Qed.

Lemma flow_stats_csv_shape_witness :
  exists line,
    flowCsv (flow_stats_loop (fun _ => scenario_tuple)
               [(1%N, scenario_flow); (2%N, lost_flow)]) !! 2%nat = Some line /\
    fields line !! 0%nat = Some (show_uint 2).
Proof.
  apply (proj1 (proj2 (proj2 (proj2
           (flow_stats_csv_shape (fun _ => scenario_tuple)
              [(1%N, scenario_flow); (2%N, lost_flow)]))))
           1%nat (2%N, lost_flow)).
  reflexivity.
Defined.

End FlowFacts.
